(** * FrankenAgent: a shallow embedding of [agents/frankenagent/frankenagent.py]

    The agent is a geniusweb negotiation party.  Its decision core is made of
    [accept], [find_bid] and [score_bid]; [notifyChange] dispatches the
    protocol messages to [opponent_action] and [my_turn].

    Conventions of the embedding:
    - a Python call that may raise returns a [result];
    - the calls into Python's [random] module are the nodes of a [Rand] tree;
    - [decimal.Decimal] numbers are coefficient/exponent pairs, Python floats
      are the kernel's binary64 floats;
    - [print] and the reporter's log are not modelled; the read of the
      attribute [self.logger] is, since it can raise. *)

From Stdlib Require Import ZArith QArith Qpower Floats String Ascii DecimalString.
From Stdlib Require Import Bool Lia Arith List.
Import ListNotations.

Set Warnings "-inexact-float".
Close Scope Q_scope.
Open Scope nat_scope.

(** ** Python exceptions *)

Inductive exn : Type :=
| AttributeError
| IndexError
| ValueError
| ZeroDivisionError
| OverflowError.

Inductive result (A : Type) : Type :=
| Ok (a : A)
| Raise (e : exn).

Arguments Ok {A} a.
Arguments Raise {A} e.

Definition rbind {A B : Type} (r : result A) (k : A -> result B) : result B :=
  match r with
  | Ok a => k a
  | Raise e => Raise e
  end.

(** [attr o] reads through a reference that may be [None]: calling a method
    on [None] raises [AttributeError]. *)
Definition attr {A : Type} (o : option A) : result A :=
  match o with
  | Some a => Ok a
  | None => Raise AttributeError
  end.

(** ** decimal.Decimal

    A finite [Decimal] is [coeff * 10 ^ expn].  Comparison is exact.  An
    arithmetic result is the exact result rounded to the precision of the
    context; the agent never touches the context, so this is the default one:
    28 significant digits, ROUND_HALF_EVEN. *)

Module Dec.

Record t : Type := mk { coeff : Z; expn : Z }.

Definition prec : Z := 28.

(** the coefficient of [d] once its exponent is lowered to [e <= expn d] *)
Definition scale (d : t) (e : Z) : Z := (coeff d * 10 ^ (expn d - e))%Z.

Definition compare (a b : t) : comparison :=
  let e := Z.min (expn a) (expn b) in
  (scale a e ?= scale b e)%Z.

Definition gtb (a b : t) : bool :=
  match compare a b with Gt => true | _ => false end.

Definition leb (a b : t) : bool := negb (gtb a b).

Definition eqb (a b : t) : bool :=
  match compare a b with Eq => true | _ => false end.

Fixpoint ndigits_aux (fuel : nat) (n : Z) : Z :=
  match fuel with
  | O => 0
  | S fuel' => if (n =? 0)%Z then 0%Z else (1 + ndigits_aux fuel' (n / 10))%Z
  end.

(** number of decimal digits of [|n|] (0 for 0) *)
Definition ndigits (n : Z) : Z :=
  ndigits_aux (S (Z.to_nat (Z.log2 (Z.abs n)))) (Z.abs n).

(** [n / d] rounded to the nearest integer, ties to the even one
    ([0 <= n], [0 < d]) *)
Definition div_half_even (n d : Z) : Z :=
  let q := (n / d)%Z in
  let r := (n mod d)%Z in
  if (2 * r <? d)%Z then q
  else if (d <? 2 * r)%Z then (q + 1)%Z
  else if Z.even q then q else (q + 1)%Z.

(** [Decimal._fix]: round to at most [prec] significant digits *)
Definition fix_prec (d : t) : t :=
  let k := (ndigits (coeff d) - prec)%Z in
  if (k <=? 0)%Z then d
  else mk (Z.sgn (coeff d) * div_half_even (Z.abs (coeff d)) (10 ^ k)) (expn d + k).

(** the mathematical difference, before rounding *)
Definition sub_exact (a b : t) : t :=
  let e := Z.min (expn a) (expn b) in
  mk (scale a e - scale b e) e.

(** [a - b] as [Decimal.__sub__] computes it *)
Definition sub (a b : t) : t := fix_prec (sub_exact a b).

(** [Decimal(f)] for a float [f]: the exact value of the binary float
    ([m * 2 ^ e] is [m * 5 ^ (-e) * 10 ^ e] when [e < 0]).  [Decimal] of an
    infinity or a NaN is not a finite number, and is left out. *)
Definition from_float (f : float) : option t :=
  match Prim2SF f with
  | S754_zero _ => Some (mk 0 0)
  | S754_finite s m e =>
      let c := if s then Z.neg m else Z.pos m in
      if (e <? 0)%Z then Some (mk (c * 5 ^ (- e)) e)
      else Some (mk (c * 2 ^ e) 0)
  | _ => None
  end.

(** the rational number a [Decimal] denotes *)
Definition value (d : t) : Q := (inject_Z (coeff d) * Qpower (10 # 1) (expn d))%Q.

End Dec.

(** [Decimal(0.9)]: the source builds the margin from the float literal. *)
Definition Decimal_0_9 : Dec.t :=
  Eval vm_compute in
    match Dec.from_float 0.9%float with
    | Some d => d
    | None => Dec.mk 0 0
    end.

(** ** Python's [random] module

    The agent draws its randomness through [random.sample] and
    [random.choice].  A computation that uses them is a tree whose nodes are
    those calls; the leaves are its results.  [Sample n k] stands for
    [random.sample(range(n), k)], a list of [k] distinct indices below [n],
    every such list being equally likely; [Choice n] for the index
    [random.choice] draws, uniformly, in a sequence of length [n]. *)

Module Rand.

Inductive t (A : Type) : Type :=
| Ret (a : A)
| Sample (n k : nat) (cont : list nat -> t A)
| Choice (n : nat) (cont : nat -> t A).

Arguments Ret {A} a.
Arguments Sample {A} n k cont.
Arguments Choice {A} n cont.

Fixpoint bind {A B : Type} (m : t A) (f : A -> t B) : t B :=
  match m with
  | Ret a => f a
  | Sample n k cont => Sample n k (fun l => bind (cont l) f)
  | Choice n cont => Choice n (fun i => bind (cont i) f)
  end.

(** [sys.maxsize]: the largest length [len] can report, [2 ** 63 - 1] on a
    64-bit platform *)
Definition sys_maxsize : Z := (2 ^ 63 - 1)%Z.

(** [random.sample(range(n), k)].  [sample] first takes [len] of the
    population: on a [range] longer than [sys.maxsize] that raises
    [OverflowError].  Then [ValueError] when the sample is larger than the
    population. *)
Definition sample (n k : nat) : t (result (list nat)) :=
  if (sys_maxsize <? Z.of_nat n)%Z then Ret (Raise OverflowError)
  else if k <=? n then Sample n k (fun l => Ret (Ok l))
  else Ret (Raise ValueError).

(** [random.choice(seq)]; [IndexError] on an empty sequence *)
Definition choice {A : Type} (xs : list A) : t (result A) :=
  match xs with
  | [] => Ret (Raise IndexError)
  | _ :: _ =>
      Choice (length xs)
        (fun i => Ret (match nth_error xs i with
                       | Some a => Ok a
                       | None => Raise IndexError
                       end))
  end.

(** a draw that [random.sample(range(n), k)] can return *)
Definition is_sample (n k : nat) (l : list nat) : Prop :=
  NoDup l /\ length l = k /\ Forall (fun i => i < n) l.

(** [returns m a]: some run of [m] ends with [a] *)
Inductive returns {A : Type} : t A -> A -> Prop :=
| returns_Ret (a : A) : returns (Ret a) a
| returns_Sample (n k : nat) (cont : list nat -> t A) (l : list nat) (a : A) :
    is_sample n k l -> returns (cont l) a -> returns (Sample n k cont) a
| returns_Choice (n : nat) (cont : nat -> t A) (i : nat) (a : A) :
    i < n -> returns (cont i) a -> returns (Choice n cont) a.

(** all the lists of [k] distinct elements of [pool] *)
Fixpoint arrangements (pool : list nat) (k : nat) : list (list nat) :=
  match k with
  | O => [[]]
  | S k' =>
      flat_map
        (fun x => map (cons x) (arrangements (remove Nat.eq_dec x pool) k'))
        pool
  end.

Definition Qsum (l : list Q) : Q := fold_right Qplus 0%Q l.

Definition average (l : list Q) : Q :=
  (Qsum l / inject_Z (Z.of_nat (length l)))%Q.

(** [prob m P]: the probability that a run of [m] ends in [P] *)
Fixpoint prob {A : Type} (m : t A) (P : A -> bool) : Q :=
  match m with
  | Ret a => if P a then 1%Q else 0%Q
  | Sample n k cont =>
      average (map (fun l => prob (cont l) P) (arrangements (seq 0 n) k))
  | Choice n cont =>
      average (map (fun i => prob (cont i) P) (seq 0 n))
  end.

End Rand.

(** ** geniusweb: domain, bids, profile, progress, actions, messages *)

Definition Issue : Type := string.
Definition Value : Type := string.

(** a bid assigns a value to every issue *)
Definition Bid : Type := list (Issue * Value).

(** a domain gives every issue its set of values *)
Definition Domain : Type := list (Issue * list Value).

(** bids are equal when they give the same value to the same issues *)
Fixpoint Bid_eqb (a b : Bid) : bool :=
  match a, b with
  | [], [] => true
  | (i, v) :: a', (j, w) :: b' =>
      String.eqb i j && String.eqb v w && Bid_eqb a' b'
  | _, _ => false
  end.

(** [AllBidsList(domain)]: the cross product of the value sets, addressed by
    index ([size] is [length], [get] is [nth_error]) *)
Fixpoint AllBidsList (d : Domain) : list Bid :=
  match d with
  | [] => [[]]
  | (i, vs) :: d' =>
      flat_map (fun v => map (cons (i, v)) (AllBidsList d')) vs
  end.

(** The agent's own utility space.  [getUtility] is defined on every bid;
    what it does when handed [None] is the profile's own business
    ([utility_None]): geniusweb's [LinearAdditiveUtilitySpace] reads
    [bid.getValue(issue)] and so raises [AttributeError]. *)
Record Profile : Type := mkProfile {
  getDomain : Domain;
  utility : Bid -> Dec.t;
  utility_None : result Dec.t
}.

Definition getUtility (p : Profile) (bid : option Bid) : result Dec.t :=
  match bid with
  | Some b => Ok (utility p b)
  | None => utility_None p
  end.

(** [ProgressTime]: timestamp in milliseconds to the elapsed fraction *)
Record Progress : Type := mkProgress { get : float -> float }.

Definition PartyId : Type := string.

Definition Parameters : Type := list (string * string).

Fixpoint Parameters_get (p : Parameters) (key : string) : option string :=
  match p with
  | [] => None
  | (k, v) :: p' => if String.eqb k key then Some v else Parameters_get p' key
  end.

(** An action holds what its constructor was given: the agent builds its own
    actions from attributes that may still be [None]. *)
Inductive Action : Type :=
| Offer (actor : option PartyId) (bid : Bid)
| Accept (actor : option PartyId) (bid : option Bid)
| EndNegotiation (actor : option PartyId).

Definition getActor (a : Action) : option PartyId :=
  match a with
  | Offer actor _ => actor
  | Accept actor _ => actor
  | EndNegotiation actor => actor
  end.

(** [Settings] as the agent reads it; [getProfile] stands for the profile
    that [ProfileConnectionFactory] fetches from the settings' URI *)
Record Settings : Type := mkSettings {
  getID : PartyId;
  getProgress : Progress;
  getParameters : Parameters;
  getProfile : Profile
}.

Inductive Inform : Type :=
| InformSettings (s : Settings)
| ActionDone (a : Action)
| YourTurn
| Finished
| OtherInform.

(** ** The opponent preference model *)

Definition Counts : Type := list (Value * nat).

Fixpoint increment (v : Value) (c : Counts) : Counts :=
  match c with
  | [] => [(v, 1)]
  | (v', n) :: c' =>
      if String.eqb v v' then (v', S n) :: c' else (v', n) :: increment v c'
  end.

Fixpoint observe (i : Issue) (v : Value) (m : list (Issue * Counts))
  : list (Issue * Counts) :=
  match m with
  | [] => [(i, [(v, 1)])]
  | (i', c) :: m' =>
      if String.eqb i i' then (i', increment v c) :: m'
      else (i', c) :: observe i v m'
  end.

(** Modelled from the spec: [utils/opponent_model.py] (the class
    [OpponentModel]) is not among the sources.  Its state is a mapping from
    issue to a mapping from value to observation count; it starts empty. *)
Record OpponentModel : Type := mkOpponentModel {
  om_domain : option Domain;
  om_counts : list (Issue * Counts)
}.

(** Modelled from the spec: the constructor [OpponentModel(domain)], absent
    from the sources; the model starts with no observation. *)
Definition OpponentModel_init (d : option Domain) : OpponentModel :=
  mkOpponentModel d [].

(** Modelled from the spec: [OpponentModel.update(bid)], absent from the
    sources; for each issue of the bid, the count of the value the bid
    assigns to it goes up by one, and no count is ever erased. *)
Definition OpponentModel_update (m : OpponentModel) (bid : Bid) : OpponentModel :=
  mkOpponentModel (om_domain m)
    (fold_left (fun acc iv => observe (fst iv) (snd iv) acc) bid (om_counts m)).

(** ** The agent *)

(** The attributes of a [FrankenAgent] instance, followed by what the agent
    acts on outside itself: the [OpponentModel] objects it has constructed
    ([opponent_model] is a reference into [heap]), the actions handed to the
    connection, the files written, and whether [terminate] was called. *)
Record State : Type := mkState {
  domain : option Domain;
  parameters : option Parameters;
  profile : option Profile;
  progress : option Progress;
  me : option PartyId;
  other : option string;
  settings : option Settings;
  storage_dir : option string;
  last_received_bid : option Bid;
  opponent_model : option nat;
  heap : list OpponentModel;
  sent : list Action;
  files : list (string * string);
  terminated : bool
}.

(** [FrankenAgent.__init__] *)
Definition init : State :=
  mkState None None None None None None None None None None [] [] [] false.

Definition set_settings (st : State) (s : Settings) : State :=
  mkState
    (Some (getDomain (getProfile s)))
    (Some (getParameters s))
    (Some (getProfile s))
    (Some (getProgress s))
    (Some (getID s))
    (other st)
    (Some s)
    (Parameters_get (getParameters s) "storage_dir")
    (last_received_bid st) (opponent_model st)
    (heap st) (sent st) (files st) (terminated st).

Definition set_other (st : State) (o : string) : State :=
  mkState (domain st) (parameters st) (profile st) (progress st) (me st)
    (Some o) (settings st) (storage_dir st)
    (last_received_bid st) (opponent_model st)
    (heap st) (sent st) (files st) (terminated st).

Definition set_last_received_bid (st : State) (b : Bid) : State :=
  mkState (domain st) (parameters st) (profile st) (progress st) (me st)
    (other st) (settings st) (storage_dir st)
    (Some b) (opponent_model st)
    (heap st) (sent st) (files st) (terminated st).

(** [self.opponent_model = OpponentModel(self.domain)]: a new object *)
Definition new_opponent_model (st : State) : State :=
  mkState (domain st) (parameters st) (profile st) (progress st) (me st)
    (other st) (settings st) (storage_dir st)
    (last_received_bid st) (Some (length (heap st)))
    (heap st ++ [OpponentModel_init (domain st)])
    (sent st) (files st) (terminated st).

Fixpoint heap_update (h : list OpponentModel) (r : nat)
    (f : OpponentModel -> OpponentModel) : list OpponentModel :=
  match h, r with
  | [], _ => []
  | m :: h', O => f m :: h'
  | m :: h', S r' => m :: heap_update h' r' f
  end.

(** [self.opponent_model.update(bid)]: the object is changed in place *)
Definition update_opponent_model (st : State) (bid : Bid) : State :=
  match opponent_model st with
  | None => st
  | Some r =>
      mkState (domain st) (parameters st) (profile st) (progress st) (me st)
        (other st) (settings st) (storage_dir st)
        (last_received_bid st) (opponent_model st)
        (heap_update (heap st) r (fun m => OpponentModel_update m bid))
        (sent st) (files st) (terminated st)
  end.

(** [send_action]: [self.getConnection().send(action)] *)
Definition send_action (st : State) (action : Action) : State :=
  mkState (domain st) (parameters st) (profile st) (progress st) (me st)
    (other st) (settings st) (storage_dir st)
    (last_received_bid st) (opponent_model st)
    (heap st) (sent st ++ [action]) (files st) (terminated st).

Definition str_option (o : option string) : string :=
  match o with
  | Some s => s
  | None => "None"
  end.

(** [save_data]: writes the placeholder note to [storage_dir/data.md] *)
Definition save_data (st : State) : State :=
  mkState (domain st) (parameters st) (profile st) (progress st) (me st)
    (other st) (settings st) (storage_dir st)
    (last_received_bid st) (opponent_model st)
    (heap st) (sent st)
    (files st ++ [((str_option (storage_dir st) ++ "/data.md")%string,
                   "Data for learning (see README.md)"%string)])
    (terminated st).

(** [self.logger]: read by [notifyChange] when the session has finished and
    on a message of an unknown class.  The class assigns it nowhere, neither
    in [__init__] nor later (its reporter is reached by [getReporter()]), so
    reading it raises [AttributeError]. *)
Definition logger (st : State) : option unit := None.

(** [super().terminate()] *)
Definition terminate (st : State) : State :=
  mkState (domain st) (parameters st) (profile st) (progress st) (me st)
    (other st) (settings st) (storage_dir st)
    (last_received_bid st) (opponent_model st)
    (heap st) (sent st) (files st) true.

(** [s.rsplit("_", 1)[0]]: [s] up to its last underscore, all of [s] when it
    has none *)
Fixpoint before_last_underscore (s : string) : option string :=
  match s with
  | EmptyString => None
  | String c s' =>
      match before_last_underscore s' with
      | Some p => Some (String c p)
      | None => if Ascii.eqb c "_"%char then Some EmptyString else None
      end
  end.

Definition rsplit_underscore_head (s : string) : string :=
  match before_last_underscore s with
  | Some p => p
  | None => s
  end.

Definition PartyId_eqb (a b : option PartyId) : bool :=
  match a, b with
  | Some x, Some y => String.eqb x y
  | None, None => true
  | _, _ => false
  end.

(** [opponent_action]: an offer creates the opponent model if there is none
    yet, updates it with the bid and records the bid as the last received
    one; any other action is ignored. *)
Definition opponent_action (st : State) (action : Action) : State :=
  match action with
  | Offer _ bid =>
      let st1 :=
        match opponent_model st with
        | None => new_opponent_model st
        | Some _ => st
        end in
      let st2 := update_opponent_model st1 bid in
      set_last_received_bid st2 bid
  | _ => st
  end.

(** the default of [accept]'s parameter [T] *)
Definition T_default : float := 0.95%float.

(** [accept(my_upcoming_bid, opponent_offer, T)]; [now] is what [time()]
    returns when the progress is read. *)
Definition accept (st : State) (my_upcoming_bid : Bid)
    (opponent_offer : option Bid) (T : float) (now : float) : result bool :=
  match opponent_offer with
  | None => Ok false
  | Some offer =>
      rbind (attr (progress st)) (fun pg =>
      let progress := get pg (now * 1000)%float in
      rbind (attr (profile st)) (fun pf =>
      rbind (getUtility pf (Some offer)) (fun u_offer =>
      rbind (getUtility pf (Some my_upcoming_bid)) (fun u_mine =>
      Ok (Dec.gtb u_offer u_mine || (T <? progress)%float)))))
  end.

Definition max_bids_to_check : nat := 500.

(** [previous_offer_utility - Decimal(0.9)], the threshold of the concession
    test *)
Definition concession_threshold (previous_offer_utility : Dec.t) : Dec.t :=
  Dec.sub previous_offer_utility Decimal_0_9.

(** the loop of [find_bid] over the sampled indices: [all_bids.get(index)],
    then the concession test, appending the bids that pass *)
Fixpoint similar_loop (pf : Profile) (previous_offer_utility : Dec.t)
    (all_bids : list Bid) (random_indices : list nat)
    (similar_bids_with_concession : list Bid) : result (list Bid) :=
  match random_indices with
  | [] => Ok similar_bids_with_concession
  | index :: rest =>
      rbind (match nth_error all_bids index with
             | Some b => Ok b
             | None => Raise IndexError
             end) (fun bid =>
      rbind (getUtility pf (Some bid)) (fun bid_utility =>
      similar_loop pf previous_offer_utility all_bids rest
        (if Dec.gtb bid_utility (concession_threshold previous_offer_utility)
         then similar_bids_with_concession ++ [bid]
         else similar_bids_with_concession)))
  end.

(** [find_bid] *)
Definition find_bid (st : State) : Rand.t (result Bid) :=
  match attr (profile st) with
  | Raise e => Rand.Ret (Raise e)
  | Ok pf =>
      match getUtility pf (last_received_bid st) with
      | Raise e => Rand.Ret (Raise e)
      | Ok previous_offer_utility =>
          let all_bids := AllBidsList (getDomain pf) in
          let num_bids := length all_bids in
          Rand.bind
            (Rand.sample num_bids (Nat.min num_bids max_bids_to_check))
            (fun r =>
               match r with
               | Raise e => Rand.Ret (Raise e)
               | Ok random_indices =>
                   match similar_loop pf previous_offer_utility all_bids
                           random_indices [] with
                   | Raise e => Rand.Ret (Raise e)
                   | Ok [] => Rand.choice all_bids
                   | Ok similar_bids_with_concession =>
                       Rand.choice similar_bids_with_concession
                   end
               end)
      end
  end.

(** [my_turn]: one candidate from [find_bid], then [accept] decides between
    accepting the last received bid and offering the candidate. *)
Definition my_turn (st : State) (now : float) : Rand.t (result unit * State) :=
  Rand.bind (find_bid st) (fun r =>
    match r with
    | Raise e => Rand.Ret (Raise e, st)
    | Ok bid =>
        match accept st bid (last_received_bid st) T_default now with
        | Raise e => Rand.Ret (Raise e, st)
        | Ok true =>
            Rand.Ret (Ok tt, send_action st (Accept (me st) (last_received_bid st)))
        | Ok false =>
            Rand.Ret (Ok tt, send_action st (Offer (me st) bid))
        end
    end).

(** [notifyChange]: the dispatch on the class of the message.  When the
    session has finished, [save_data] runs, then the log through
    [self.logger], then [terminate]; a message of an unknown class is only
    logged, through [self.logger] too. *)
Definition notifyChange (st : State) (data : Inform) (now : float)
  : Rand.t (result unit * State) :=
  match data with
  | InformSettings s => Rand.Ret (Ok tt, set_settings st s)
  | ActionDone action =>
      let actor := getActor action in
      if negb (PartyId_eqb actor (me st)) then
        let st1 := set_other st (rsplit_underscore_head (str_option actor)) in
        Rand.Ret (Ok tt, opponent_action st1 action)
      else Rand.Ret (Ok tt, st)
  | YourTurn => my_turn st now
  | Finished =>
      let st1 := save_data st in
      match attr (logger st1) with
      | Raise e => Rand.Ret (Raise e, st1)
      | Ok _ => Rand.Ret (Ok tt, terminate st1)
      end
  | OtherInform =>
      match attr (logger st) with
      | Raise e => Rand.Ret (Raise e, st)
      | Ok _ => Rand.Ret (Ok tt, st)
      end
  end.

(** [1 / eps] and the like: Python raises on a zero divisor. *)
Definition float_div (a b : float) : result float :=
  if (b =? 0)%float then Raise ZeroDivisionError else Ok (a / b)%float.

(** the object a reference of the agent stands for *)
Definition deref (st : State) (r : nat) : result OpponentModel :=
  attr (nth_error (heap st) r).

Section Scoring.

(** [x ** y] on floats (the platform's [pow], which may raise), the
    conversion [float(d)] of a [Decimal], and the prediction of the opponent
    model, whose code is not among the sources. *)
Variable float_pow : float -> float -> result float.
Variable float_of_Decimal : Dec.t -> float.
Variable get_predicted_utility : OpponentModel -> Bid -> float.

(** [score_bid(bid, alpha, eps)] *)
Definition score_bid (st : State) (bid : Bid) (alpha eps : float) (now : float)
  : result float :=
  rbind (attr (progress st)) (fun pg =>
  let progress := get pg (now * 1000)%float in
  rbind (attr (profile st)) (fun pf =>
  rbind (getUtility pf (Some bid)) (fun u =>
  let our_utility := float_of_Decimal u in
  rbind (float_div 1 eps) (fun inv_eps =>
  rbind (float_pow progress inv_eps) (fun p =>
  let time_pressure := (1 - p)%float in
  let score := (alpha * time_pressure * our_utility)%float in
  match opponent_model st with
  | None => Ok score
  | Some r =>
      rbind (deref st r) (fun m =>
      let opponent_utility := get_predicted_utility m bid in
      let opponent_score := ((1 - alpha * time_pressure) * opponent_utility)%float in
      Ok (score + opponent_score)%float)
  end))))).

End Scoring.

(** the defaults of [score_bid]'s parameters *)
Definition alpha_default : float := 0.95%float.
Definition eps_default : float := 0.1%float.

(** ** Notions the properties are stated with *)

(** the concession test of [find_bid] on one bid *)
Definition passes_concession (pf : Profile) (previous_offer_utility : Dec.t)
    (bid : Bid) : bool :=
  Dec.gtb (utility pf bid) (concession_threshold previous_offer_utility).

(** the bids found at the given indices of the bid space *)
Definition bids_at (all_bids : list Bid) (indices : list nat) : list Bid :=
  flat_map (fun i => match nth_error all_bids i with
                     | Some b => [b]
                     | None => []
                     end) indices.

(** The search as the spec words its degenerate case: the same sample, and a
    uniformly random choice among all the sampled bids, with no filter. *)
Definition choose_from_sample (pf : Profile) : Rand.t (result Bid) :=
  let all_bids := AllBidsList (getDomain pf) in
  let num_bids := length all_bids in
  Rand.bind
    (Rand.sample num_bids (Nat.min num_bids max_bids_to_check))
    (fun r =>
       match r with
       | Raise e => Rand.Ret (Raise e)
       | Ok random_indices => Rand.choice (bids_at all_bids random_indices)
       end).

(** a message is an offer of another party, for an agent whose id is [m] *)
Definition is_opponent_offer (m : option PartyId) (data : Inform) : bool :=
  match data with
  | ActionDone (Offer actor _) => negb (PartyId_eqb actor m)
  | _ => false
  end.

(** the agent's id once it has read [data] *)
Definition me_after (m : option PartyId) (data : Inform) : option PartyId :=
  match data with
  | InformSettings s => Some (getID s)
  | _ => m
  end.

(** how many offers of another party a sequence of messages brings to an
    agent whose id is [m] at its start *)
Fixpoint opponent_offers (m : option PartyId) (trace : list (Inform * float))
  : nat :=
  match trace with
  | [] => 0
  | (data, _) :: trace' =>
      (if is_opponent_offer m data then 1 else 0)
      + opponent_offers (me_after m data) trace'
  end.

(** [run st trace st']: the agent in state [st] is notified of the messages
    of [trace], each at its time, and ends in [st'].  A notification that
    raises leaves the agent as it was when the exception left it. *)
Inductive run : State -> list (Inform * float) -> State -> Prop :=
| run_nil (st : State) : run st [] st
| run_cons (st st1 st2 : State) (data : Inform) (now : float)
    (r : result unit) (trace : list (Inform * float)) :
    Rand.returns (notifyChange st data now) (r, st1) ->
    run st1 trace st2 ->
    run st ((data, now) :: trace) st2.

(** ** A small session, for running the agent

    One issue with two values; the agent's utility is 1 for the first value
    and 0.1 for the second. *)

Module Example.

Definition dom : Domain := [("A"%string, ["a1"%string; "a2"%string])].

Definition bid1 : Bid := [("A"%string, "a1"%string)].
Definition bid2 : Bid := [("A"%string, "a2"%string)].

Definition util (b : Bid) : Dec.t :=
  if Bid_eqb b bid1 then Dec.mk 1 0
  else if Bid_eqb b bid2 then Dec.mk 1 (-1)
  else Dec.mk 0 0.

Definition prof : Profile := mkProfile dom util (Raise AttributeError).

(** a [ProgressTime] that starts at 0 and lasts 100 seconds *)
Definition prog : Progress :=
  mkProgress (fun ms =>
    let ratio := (ms / 100000)%float in
    if (1 <? ratio)%float then 1%float
    else if (ratio <? 0)%float then 0%float else ratio).

Definition sett : Settings :=
  mkSettings "me_1"%string prog [("storage_dir"%string, "/tmp"%string)] prof.

(** the agent once it has its settings, before any offer *)
Definition started : State := set_settings init sett.

(** the same after the opponent offered [b] *)
Definition after_offer (b : Bid) : State :=
  opponent_action (set_other started "them"%string) (Offer (Some "them_2"%string) b).

(** the state with the same profile and last received bid as
    [after_offer bid1], but no opponent model *)
Definition no_model : State :=
  set_last_received_bid started bid1.

(** stand-ins for what [score_bid] takes from outside the sources: the tenth
    power by repeated multiplication, whatever the exponent; the conversion
    of the utilities of the example; a constant prediction *)
Definition pow (x y : float) : result float :=
  let x2 := (x * x)%float in
  let x4 := (x2 * x2)%float in
  let x8 := (x4 * x4)%float in
  Ok (x8 * x2)%float.

Definition float_of_Decimal (d : Dec.t) : float :=
  if Dec.eqb d (Dec.mk 1 0) then 1%float
  else if Dec.eqb d (Dec.mk 1 (-1)) then 0.1%float
  else 0%float.

Definition predict (m : OpponentModel) (b : Bid) : float := 0.5%float.

(** a session of the example agent: its settings, an offer by the other
    party, a turn, a second offer, and the end of the session *)
Definition trace : list (Inform * float) :=
  [ (InformSettings sett, 0%float);
    (ActionDone (Offer (Some "them_2"%string) bid1), 10%float);
    (YourTurn, 50%float);
    (ActionDone (Offer (Some "them_2"%string) bid2), 60%float);
    (Finished, 70%float) ].

(** a second profile on the example domain: the first bid is worth 0.5 to the
    agent, the second 1 *)
Definition util_half (b : Bid) : Dec.t :=
  if Bid_eqb b bid1 then Dec.mk 5 (-1)
  else if Bid_eqb b bid2 then Dec.mk 1 0
  else Dec.mk 0 0.

Definition prof_half : Profile :=
  mkProfile dom util_half (Raise AttributeError).

(** the agent with that profile, after the opponent offered the first bid *)
Definition half : State :=
  opponent_action
    (set_settings init
       (mkSettings "me_1"%string prog
          [("storage_dir"%string, "/tmp"%string)] prof_half))
    (Offer (Some "them_2"%string) bid1).

(** a domain of 63 issues with two values each: its [2 ** 63] bids are one
    more than [sys.maxsize] *)
Definition wide_dom : Domain :=
  map (fun k => (("i" ++ NilEmpty.string_of_uint (Nat.to_uint k))%string,
                 ["a"%string; "b"%string]))
    (seq 1 63).

(** the bid that takes the first value of every issue *)
Definition wide_bid : Bid := map (fun iv => (fst iv, "a"%string)) wide_dom.

(** every bid of that domain is worth 0.5 to the agent *)
Definition wide_prof : Profile :=
  mkProfile wide_dom (fun _ => Dec.mk 5 (-1)) (Raise AttributeError).

(** the agent with that profile, after the opponent offered [wide_bid] *)
Definition wide : State :=
  opponent_action
    (set_settings init
       (mkSettings "me_1"%string prog
          [("storage_dir"%string, "/tmp"%string)] wide_prof))
    (Offer (Some "them_2"%string) wide_bid).

End Example.


From Stdlib Require Import Permutation.

(** ** Notions for the properties of whole sessions *)

(** the settings read last along a trace, [current] being those in force at
    its start *)
Fixpoint latest_settings (current : option Settings)
    (trace : list (Inform * float)) : option Settings :=
  match trace with
  | [] => current
  | (InformSettings s, _) :: trace' => latest_settings (Some s) trace'
  | _ :: trace' => latest_settings current trace'
  end.

(** the attributes of the agent that come from its settings are those of
    [current], or still unset *)
Definition session_of (current : option Settings) (st : State) : Prop :=
  settings st = current
  /\ me st = option_map getID current
  /\ progress st = option_map getProgress current
  /\ parameters st = option_map getParameters current
  /\ profile st = option_map getProfile current
  /\ domain st = option_map (fun s => getDomain (getProfile s)) current
  /\ storage_dir st
     = match current with
       | Some s => Parameters_get (getParameters s) "storage_dir"
       | None => None
       end.

(** the bids that other parties offer along a trace, in the order of their
    arrival, for an agent whose id is [m] at its start *)
Fixpoint opponent_bids (m : option PartyId) (trace : list (Inform * float))
  : list Bid :=
  match trace with
  | [] => []
  | (data, _) :: trace' =>
      match data with
      | ActionDone (Offer actor bid) =>
          if negb (PartyId_eqb actor m) then [bid] else []
      | _ => []
      end ++ opponent_bids (me_after m data) trace'
  end.

(** the number of times the agent is given the floor *)
Fixpoint turns (trace : list (Inform * float)) : nat :=
  match trace with
  | [] => 0
  | (YourTurn, _) :: trace' => S (turns trace')
  | _ :: trace' => turns trace'
  end.

(** an action the agent may send once it has received the bids [seen]: an
    offer, or the acceptance of one of these bids *)
Definition sendable (seen : list Bid) (a : Action) : Prop :=
  match a with
  | Offer _ _ => True
  | Accept _ (Some b) => In b seen
  | Accept _ None => False
  | EndNegotiation _ => False
  end.

Definition no_underscore (s : string) : Prop :=
  forall c, In c (list_ascii_of_string s) -> c <> "_"%char.

(** the result of the search is the bid [b] *)
Definition is_bid (b : Bid) (r : result Bid) : bool :=
  match r with
  | Ok x => Bid_eqb x b
  | Raise _ => false
  end.

(** the result of the search is a bid of [bids] *)
Definition is_bid_of (bids : list Bid) (r : result Bid) : bool :=
  match r with
  | Ok x => existsb (Bid_eqb x) bids
  | Raise _ => false
  end.

(** Every draw of the computation is one that [random] can serve: no sample
    larger than its population, no choice in an empty sequence. *)
Inductive proper {A : Type} : Rand.t A -> Prop :=
| proper_Ret (a : A) : proper (Rand.Ret a)
| proper_Sample (n k : nat) (cont : list nat -> Rand.t A) :
    k <= n ->
    (forall l, Rand.is_sample n k l -> proper (cont l)) ->
    proper (Rand.Sample n k cont)
| proper_Choice (n : nat) (cont : nat -> Rand.t A) :
    0 < n ->
    (forall i, i < n -> proper (cont i)) ->
    proper (Rand.Choice n cont).

(** the settings in force when the first offer of another party arrives *)
Fixpoint settings_at_first_offer (current : option Settings)
    (m : option PartyId) (trace : list (Inform * float)) : option Settings :=
  match trace with
  | [] => current
  | (data, now) :: trace' =>
      if is_opponent_offer m data then current
      else settings_at_first_offer (latest_settings current [(data, now)])
             (me_after m data) trace'
  end.


(** the number of bids of a domain: the product of the numbers of values of
    its issues *)
Definition bid_space_size (d : Domain) : Z :=
  fold_right (fun iv acc => (Z.of_nat (length (snd iv)) * acc)%Z) 1%Z d.
(** * Properties *)

(** ** Decimals and floats *)

(** the margin of the source is the exact value of the float [0.9] *)
Lemma Decimal_0_9_from_float : Dec.from_float 0.9%float = Some Decimal_0_9.
Proof. vm_compute. reflexivity. Qed.

Module DecFacts.

Lemma ten_pos (z : Z) : (0 < Qpower (10 # 1) z)%Q.
Proof. apply Qpower_0_lt. reflexivity. Qed.

Lemma scale_value (d : Dec.t) (m : Z) :
  (m <= Dec.expn d)%Z ->
  (inject_Z (Dec.scale d m) * Qpower (10 # 1) m == Dec.value d)%Q.
Proof.
  intros Hm. unfold Dec.scale, Dec.value.
  rewrite inject_Z_mult, Zpower_Qpower by lia.
  change (inject_Z 10) with (10 # 1)%Q.
  rewrite <- Qmult_assoc.
  rewrite <- Qpower_plus by discriminate.
  replace (Dec.expn d - m + m)%Z with (Dec.expn d) by lia.
  reflexivity.
Qed.

(** [Decimal] comparison is the comparison of the numbers denoted. *)
Lemma compare_value (a b : Dec.t) :
  Dec.compare a b = (Dec.value a ?= Dec.value b)%Q.
Proof.
  unfold Dec.compare.
  set (m := Z.min (Dec.expn a) (Dec.expn b)).
  assert (Ha : (m <= Dec.expn a)%Z) by (subst m; lia).
  assert (Hb : (m <= Dec.expn b)%Z) by (subst m; lia).
  rewrite <- (scale_value a m Ha), <- (scale_value b m Hb).
  pose proof (ten_pos m) as Hp.
  destruct (Z.compare_spec (Dec.scale a m) (Dec.scale b m)) as [E | L | G]; symmetry.
  - rewrite E. apply Qeq_alt. reflexivity.
  - apply Qlt_alt. apply Qmult_lt_r; [exact Hp |]. rewrite <- Zlt_Qlt. exact L.
  - apply Qgt_alt. apply Qmult_lt_r; [exact Hp |]. rewrite <- Zlt_Qlt. exact G.
Qed.

Lemma gtb_value (a b : Dec.t) :
  Dec.gtb a b = true <-> (Dec.value b < Dec.value a)%Q.
Proof.
  unfold Dec.gtb. rewrite compare_value.
  split.
  - intros H. apply Qgt_alt. destruct (Dec.value a ?= Dec.value b)%Q; congruence.
  - intros H. apply Qgt_alt in H. rewrite H. reflexivity.
Qed.

Lemma gtb_false_value (a b : Dec.t) :
  Dec.gtb a b = false <-> (Dec.value a <= Dec.value b)%Q.
Proof.
  split.
  - intros H. apply Qnot_lt_le. intros L. apply gtb_value in L. congruence.
  - intros H. destruct (Dec.gtb a b) eqn:E; [| reflexivity].
    apply gtb_value in E. exfalso. exact (Qlt_not_le _ _ E H).
Qed.

End DecFacts.

Lemma SFcompare_Eq_sym (x y : spec_float) :
  SFcompare x y = Some Eq -> SFcompare y x = Some Eq.
Proof.
  destruct x as [sx | sx | | sx mx ex], y as [sy | sy | | sy my ey]; simpl;
    try reflexivity; try discriminate;
    try (destruct sx; discriminate); try (destruct sy; discriminate).
  - destruct sx, sy; try discriminate; reflexivity.
  - destruct sx, sy; try discriminate.
    + destruct (Z.compare_spec ex ey) as [E | L | G]; try discriminate.
      subst ey. rewrite Z.compare_refl. intros H.
      assert (Hm : Pos.compare_cont Eq mx my = Eq).
      { destruct (Pos.compare_cont Eq mx my); simpl in H; congruence. }
      apply Pcompare_Eq_eq in Hm. subst my. rewrite Pos.compare_cont_refl. reflexivity.
    + destruct (Z.compare_spec ex ey) as [E | L | G]; try discriminate.
      subst ey. rewrite Z.compare_refl. intros H.
      assert (Hm : Pos.compare_cont Eq mx my = Eq) by congruence.
      apply Pcompare_Eq_eq in Hm. subst my. rewrite Pos.compare_cont_refl. reflexivity.
Qed.

(** A float that equals [T] is not strictly greater than [T]. *)
Lemma float_eqb_not_ltb (p T : float) :
  (p =? T)%float = true -> (T <? p)%float = false.
Proof.
  rewrite FloatAxioms.eqb_spec, FloatAxioms.ltb_spec. unfold SFeqb, SFltb.
  destruct (SFcompare (Prim2SF p) (Prim2SF T)) as [[ | | ] | ] eqn:E; try discriminate.
  intros _. rewrite (SFcompare_Eq_sym _ _ E). reflexivity.
Qed.

(** ** The acceptance decision *)

Lemma accept_unfold (st : State) (pf : Profile) (pg : Progress)
    (my_upcoming_bid offer : Bid) (T now : float) :
  profile st = Some pf -> progress st = Some pg ->
  accept st my_upcoming_bid (Some offer) T now =
    Ok (Dec.gtb (utility pf offer) (utility pf my_upcoming_bid)
        || (T <? get pg (now * 1000))%float).
Proof.
  intros Hpf Hpg. unfold accept. rewrite Hpf, Hpg. reflexivity.
Qed.

(** C1.  The acceptance decision returns false when no opponent bid has been
    received.  Otherwise it returns a boolean, which is true exactly when the
    agent's own utility of the opponent's bid is strictly greater than its
    own utility of the upcoming bid, or the progress is strictly greater than
    the threshold [T]; with the progress equal to [T] and the opponent's bid
    no better than the upcoming one, it is false. *)
Theorem accept_decision (st : State) (my_upcoming_bid : Bid)
    (opponent_offer : option Bid) (T now : float) :
  (opponent_offer = None ->
   accept st my_upcoming_bid opponent_offer T now = Ok false)
  /\
  (forall (pf : Profile) (pg : Progress) (offer : Bid),
     profile st = Some pf -> progress st = Some pg ->
     opponent_offer = Some offer ->
     exists decision : bool,
       accept st my_upcoming_bid opponent_offer T now = Ok decision
       /\ (decision = true <->
           (Dec.value (utility pf my_upcoming_bid) < Dec.value (utility pf offer))%Q
           \/ (T <? get pg (now * 1000))%float = true)
       /\ ((get pg (now * 1000) =? T)%float = true ->
           (Dec.value (utility pf offer) <= Dec.value (utility pf my_upcoming_bid))%Q ->
           decision = false)).
Proof.
  split.
  - intros ->. reflexivity.
  - intros pf pg offer Hpf Hpg ->.
    eexists. split; [apply (accept_unfold st pf pg); assumption |].
    split.
    + rewrite orb_true_iff, DecFacts.gtb_value. reflexivity.
    + intros Heq Hle.
      apply float_eqb_not_ltb in Heq. rewrite Heq.
      apply DecFacts.gtb_false_value in Hle. rewrite Hle. reflexivity.
Qed.

(** The decision at work: at 96% of the time the agent accepts an offer
    worse than its own upcoming bid, at 50% it does not, and with no offer it
    never accepts. *)
Lemma accept_decision_witness :
  accept (Example.after_offer Example.bid2) Example.bid1 None T_default 96 = Ok false
  /\ (exists decision : bool,
        accept (Example.after_offer Example.bid2) Example.bid1
          (Some Example.bid2) T_default 96 = Ok decision
        /\ (decision = true <->
            (Dec.value (Example.util Example.bid1) < Dec.value (Example.util Example.bid2))%Q
            \/ (T_default <? get Example.prog (96 * 1000))%float = true)
        /\ ((get Example.prog (96 * 1000) =? T_default)%float = true ->
            (Dec.value (Example.util Example.bid2) <= Dec.value (Example.util Example.bid1))%Q ->
            decision = false)).
Proof.
  destruct (accept_decision (Example.after_offer Example.bid2) Example.bid1
              None T_default 96) as [HNone _].
  destruct (accept_decision (Example.after_offer Example.bid2) Example.bid1
              (Some Example.bid2) T_default 96) as [_ HSome].
  split.
  - apply HNone. reflexivity.
  - apply (HSome Example.prof Example.prog Example.bid2); reflexivity.
Defined.

(** ** Runs of a computation that draws random numbers *)

Module RandFacts.

Lemma returns_bind {A B : Type} (m : Rand.t A) (f : A -> Rand.t B) (a : A) (b : B) :
  Rand.returns m a -> Rand.returns (f a) b -> Rand.returns (Rand.bind m f) b.
Proof.
  intros Hm Hf. induction Hm; simpl.
  - exact Hf.
  - eapply Rand.returns_Sample; eauto.
  - eapply Rand.returns_Choice; eauto.
Qed.

Lemma returns_bind_inv {A B : Type} (m : Rand.t A) (f : A -> Rand.t B) (b : B) :
  Rand.returns (Rand.bind m f) b ->
  exists a, Rand.returns m a /\ Rand.returns (f a) b.
Proof.
  induction m as [a | n k cont IH | n cont IH]; simpl; intros H.
  - exists a. split; [constructor | exact H].
  - inversion H; subst.
    match goal with
    | Hs : Rand.is_sample _ _ ?l, Hr : Rand.returns _ b |- _ =>
        destruct (IH l Hr) as [a [Ha Hb]];
        exists a; split; [eapply Rand.returns_Sample; eauto | exact Hb]
    end.
  - inversion H; subst.
    match goal with
    | Hi : ?i < n, Hr : Rand.returns _ b |- _ =>
        destruct (IH i Hr) as [a [Ha Hb]];
        exists a; split; [eapply Rand.returns_Choice; eauto | exact Hb]
    end.
Qed.

Lemma returns_Ret_inv {A : Type} (a b : A) : Rand.returns (Rand.Ret a) b -> b = a.
Proof. intros H. inversion H. reflexivity. Qed.

(** the first [k] indices are a sample of [k] out of [n >= k] *)
Lemma is_sample_seq (n k : nat) : k <= n -> Rand.is_sample n k (seq 0 k).
Proof.
  intros Hk. repeat split.
  - apply seq_NoDup.
  - apply length_seq.
  - apply Forall_forall. intros i Hi. apply in_seq in Hi. lia.
Qed.

(** [random.choice] returns a member of its sequence, and any member *)
Lemma returns_choice {A : Type} (xs : list A) (r : result A) :
  xs <> [] ->
  (Rand.returns (Rand.choice xs) r <-> exists a, r = Ok a /\ In a xs).
Proof.
  intros Hne.
  assert (Hc : Rand.choice xs =
               Rand.Choice (length xs)
                 (fun i => Rand.Ret (match nth_error xs i with
                                     | Some a => Ok a
                                     | None => Raise IndexError
                                     end))).
  { destruct xs; [congruence | reflexivity]. }
  rewrite Hc. clear Hc. split.
  - intros H. inversion H as [| | n cont i a Hi Hr]; subst.
    apply returns_Ret_inv in Hr. subst.
    destruct (nth_error xs i) as [a |] eqn:E.
    + exists a. split; [reflexivity | eapply nth_error_In; eauto].
    + apply nth_error_None in E. lia.
  - intros [a [-> Hin]].
    apply In_nth_error in Hin. destruct Hin as [i Hi].
    eapply Rand.returns_Choice with (i := i).
    + apply nth_error_Some. congruence.
    + rewrite Hi. constructor.
Qed.

(** [random.sample] on a population whose length [len] can report *)
Lemma sample_within (n k : nat) :
  (Z.of_nat n <= Rand.sys_maxsize)%Z -> k <= n ->
  Rand.sample n k = Rand.Sample n k (fun l => Rand.Ret (Ok l)).
Proof.
  intros Hn Hk. unfold Rand.sample.
  apply Z.ltb_ge in Hn. rewrite Hn.
  apply Nat.leb_le in Hk. rewrite Hk. reflexivity.
Qed.

(** [random.sample] on a longer population *)
Lemma sample_overflow (n k : nat) :
  (Rand.sys_maxsize < Z.of_nat n)%Z ->
  Rand.sample n k = Rand.Ret (Raise OverflowError).
Proof.
  intros Hn. unfold Rand.sample.
  apply Z.ltb_lt in Hn. rewrite Hn. reflexivity.
Qed.

End RandFacts.

(** ** Candidate search *)

Lemma bids_at_In (all_bids : list Bid) (indices : list nat) (b : Bid) :
  In b (bids_at all_bids indices) -> In b all_bids.
Proof.
  unfold bids_at. rewrite in_flat_map. intros [i [_ Hb]].
  destruct (nth_error all_bids i) as [b' |] eqn:E; simpl in Hb; [| contradiction].
  destruct Hb as [<- | []]. eapply nth_error_In; eauto.
Qed.

(** The loop keeps, in the order of the sample, the sampled bids that pass
    the concession test. *)
Lemma similar_loop_filter (pf : Profile) (prev : Dec.t) (all_bids : list Bid)
    (indices : list nat) (acc : list Bid) :
  Forall (fun i => i < length all_bids) indices ->
  similar_loop pf prev all_bids indices acc =
    Ok (acc ++ filter (passes_concession pf prev) (bids_at all_bids indices)).
Proof.
  revert acc. induction indices as [| i rest IH]; intros acc Hall; simpl.
  - rewrite app_nil_r. reflexivity.
  - inversion Hall as [| ? ? Hi Hrest]; subst.
    destruct (nth_error all_bids i) as [b |] eqn:E.
    + simpl. rewrite IH by assumption.
      unfold passes_concession at 2.
      destruct (Dec.gtb (utility pf b) (concession_threshold prev)).
      * rewrite <- app_assoc. reflexivity.
      * reflexivity.
    + apply nth_error_None in E. lia.
Qed.

(** [find_bid] once the agent has a profile and a last received bid, on a
    bid space of at most [sys.maxsize] bids *)
Lemma find_bid_unfold (st : State) (pf : Profile) (last : Bid) :
  profile st = Some pf -> last_received_bid st = Some last ->
  (Z.of_nat (length (AllBidsList (getDomain pf))) <= Rand.sys_maxsize)%Z ->
  find_bid st =
    Rand.Sample (length (AllBidsList (getDomain pf)))
      (Nat.min (length (AllBidsList (getDomain pf))) max_bids_to_check)
      (fun random_indices =>
         match similar_loop pf (utility pf last) (AllBidsList (getDomain pf))
                 random_indices [] with
         | Raise e => Rand.Ret (Raise e)
         | Ok [] => Rand.choice (AllBidsList (getDomain pf))
         | Ok similar => Rand.choice similar
         end).
Proof.
  intros Hpf Hlast Hfit. unfold find_bid. rewrite Hpf, Hlast.
  cbn [attr getUtility]. cbv zeta.
  rewrite (RandFacts.sample_within _ _ Hfit (Nat.le_min_l _ _)).
  reflexivity.
Qed.

(** [find_bid] on a bid space of more than [sys.maxsize] bids:
    [random.sample] raises before anything is drawn *)
Lemma find_bid_overflow (st : State) (pf : Profile) (last : Bid) :
  profile st = Some pf -> last_received_bid st = Some last ->
  (Rand.sys_maxsize < Z.of_nat (length (AllBidsList (getDomain pf))))%Z ->
  find_bid st = Rand.Ret (Raise OverflowError).
Proof.
  intros Hpf Hlast Hbig. unfold find_bid. rewrite Hpf, Hlast.
  cbn [attr getUtility]. cbv zeta.
  rewrite (RandFacts.sample_overflow _ _ Hbig).
  reflexivity.
Qed.

(** What a run of [find_bid] returns: for some sample of the indices, a
    member of the sampled bids that pass the test, or of the whole bid space
    when none passes. *)
Lemma find_bid_returns (st : State) (pf : Profile) (last : Bid) (r : result Bid) :
  profile st = Some pf -> last_received_bid st = Some last ->
  let all_bids := AllBidsList (getDomain pf) in
  all_bids <> [] ->
  (Z.of_nat (length all_bids) <= Rand.sys_maxsize)%Z ->
  (Rand.returns (find_bid st) r <->
   exists random_indices b,
     Rand.is_sample (length all_bids)
       (Nat.min (length all_bids) max_bids_to_check) random_indices
     /\ r = Ok b
     /\ let similar :=
          filter (passes_concession pf (utility pf last))
            (bids_at all_bids random_indices) in
        match similar with
        | [] => In b all_bids
        | _ :: _ => In b similar
        end).
Proof.
  intros Hpf Hlast all_bids Hne Hfit.
  rewrite (find_bid_unfold st pf last Hpf Hlast Hfit). fold all_bids.
  split.
  - intros H. inversion H as [| n k cont l a Hs Hr |]; subst.
    exists l. destruct Hs as [Hnd [Hlen Hall]].
    rewrite (similar_loop_filter pf _ all_bids l [] Hall) in Hr. simpl in Hr.
    destruct (filter _ _) as [| x xs] eqn:Ef.
    + apply RandFacts.returns_choice in Hr; [| exact Hne].
      destruct Hr as [b [-> Hin]]. exists b. repeat split; assumption.
    + apply RandFacts.returns_choice in Hr; [| discriminate].
      destruct Hr as [b [-> Hin]]. exists b. repeat split; assumption.
  - intros [l [b [Hs [-> Hin]]]].
    eapply Rand.returns_Sample; [exact Hs |].
    destruct Hs as [Hnd [Hlen Hall]].
    rewrite (similar_loop_filter pf _ all_bids l [] Hall). simpl.
    simpl in Hin.
    destruct (filter _ _) as [| x xs] eqn:Ef.
    + apply RandFacts.returns_choice; [exact Hne |]. exists b. split; [reflexivity | exact Hin].
    + apply RandFacts.returns_choice; [discriminate |]. exists b. split; [reflexivity | exact Hin].
Qed.

(** With a last received bid and a non-empty bid space of at most
    [sys.maxsize] bids the search has a run, and every run returns a bid of
    the bid space. *)
Lemma find_bid_member (st : State) (pf : Profile) (last : Bid) :
  profile st = Some pf -> last_received_bid st = Some last ->
  AllBidsList (getDomain pf) <> [] ->
  (Z.of_nat (length (AllBidsList (getDomain pf))) <= Rand.sys_maxsize)%Z ->
  (exists r, Rand.returns (find_bid st) r)
  /\ (forall r, Rand.returns (find_bid st) r ->
        exists b, r = Ok b /\ In b (AllBidsList (getDomain pf))).
Proof.
  intros Hpf Hlast Hne Hfit.
  assert (Hall : forall r, Rand.returns (find_bid st) r ->
            exists b, r = Ok b /\ In b (AllBidsList (getDomain pf))).
  { intros r Hr.
    apply (find_bid_returns st pf last r Hpf Hlast Hne Hfit) in Hr.
    destruct Hr as [l [b [_ [-> Hin]]]]. exists b. split; [reflexivity |].
    simpl in Hin. destruct (filter _ _) as [| x xs] eqn:Ef; [exact Hin |].
    assert (Hf : In b (filter (passes_concession pf (utility pf last))
                         (bids_at (AllBidsList (getDomain pf)) l)))
      by (rewrite Ef; exact Hin).
    apply filter_In in Hf. destruct Hf as [Hf _].
    eapply bids_at_In; eauto. }
  split; [| exact Hall].
  assert (Hb0 : exists b0, In b0 (AllBidsList (getDomain pf))).
  { destruct (AllBidsList (getDomain pf)) as [| b0 rest]; [congruence |].
    exists b0. left. reflexivity. }
  destruct Hb0 as [b0 Hb0].
  set (k := Nat.min (length (AllBidsList (getDomain pf))) max_bids_to_check).
  assert (Hs : Rand.is_sample (length (AllBidsList (getDomain pf))) k (seq 0 k))
    by (apply RandFacts.is_sample_seq; subst k; apply Nat.le_min_l).
  destruct (filter (passes_concession pf (utility pf last))
              (bids_at (AllBidsList (getDomain pf)) (seq 0 k))) as [| x xs] eqn:Ef.
  - exists (Ok b0).
    apply (find_bid_returns st pf last (Ok b0) Hpf Hlast Hne Hfit).
    exists (seq 0 k), b0.
    split; [exact Hs |]. split; [reflexivity |].
    cbv zeta. fold k. rewrite Ef. exact Hb0.
  - exists (Ok x).
    apply (find_bid_returns st pf last (Ok x) Hpf Hlast Hne Hfit).
    exists (seq 0 k), x.
    split; [exact Hs |]. split; [reflexivity |].
    cbv zeta. fold k. rewrite Ef. left. reflexivity.
Qed.

(** C2.  The concession margin the search subtracts is [Decimal(0.9)], the
    exact value of the binary float, which lies above 0.9.  In the example
    session the opponent's bid is worth 1 to the agent and the second bid
    0.1, which is 1 - 0.9 and so does not strictly exceed it; yet the second
    bid passes the test of the search, a run of the search returns it, and it
    does so half of the time. *)
Theorem find_bid_keeps_bid_at_margin :
  let st := Example.after_offer Example.bid1 in
  let previous_offer_utility := Example.util Example.bid1 in
  last_received_bid st = Some Example.bid1
  /\ (Dec.value (Example.util Example.bid2)
      == Dec.value previous_offer_utility - (9 # 10))%Q
  /\ (Dec.value (concession_threshold previous_offer_utility)
      < Dec.value previous_offer_utility - (9 # 10))%Q
  /\ passes_concession Example.prof previous_offer_utility Example.bid2 = true
  /\ Rand.returns (find_bid st) (Ok Example.bid2)
  /\ (Rand.prob (find_bid st)
        (fun r => match r with
                  | Ok b => Bid_eqb b Example.bid2
                  | Raise _ => false
                  end) == 1 # 2)%Q.
Proof.
  cbv zeta. split; [reflexivity |].
  split; [vm_compute; reflexivity |].
  split; [vm_compute; reflexivity |].
  split; [vm_compute; reflexivity |].
  split.
  - apply (find_bid_returns (Example.after_offer Example.bid1) Example.prof
             Example.bid1);
      [reflexivity | reflexivity | discriminate | vm_compute; discriminate |].
    exists [0; 1], Example.bid2.
    split.
    + repeat split.
      * repeat constructor; simpl; intuition discriminate.
      * repeat constructor.
    + split; [reflexivity |]. vm_compute. right. left. reflexivity.
  - vm_compute. reflexivity.
Qed.

(** C3.  With no bid received yet the search still asks the profile for the
    utility of the last received bid, which is [None].  When the profile
    raises on [None], as geniusweb's does, the search raises too and draws
    nothing; when the profile answers a number [v], the search goes on and
    filters the sample against [v] like against any other baseline (on a bid
    space of more than [sys.maxsize] bids, where [random.sample] cannot
    draw, it raises [OverflowError]). *)
Theorem find_bid_without_offer (id : PartyId) (pg : Progress)
    (params : Parameters) (d : Domain) (u : Bid -> Dec.t) :
  (forall e : exn,
     let st := set_settings init (mkSettings id pg params (mkProfile d u (Raise e))) in
     last_received_bid st = None
     /\ find_bid st = Rand.Ret (Raise e))
  /\
  (forall v : Dec.t,
     let pf := mkProfile d u (Ok v) in
     let st := set_settings init (mkSettings id pg params pf) in
     last_received_bid st = None
     /\ find_bid st =
          if (Rand.sys_maxsize <? Z.of_nat (length (AllBidsList d)))%Z
          then Rand.Ret (Raise OverflowError)
          else
            Rand.Sample (length (AllBidsList d))
              (Nat.min (length (AllBidsList d)) max_bids_to_check)
              (fun random_indices =>
                 match similar_loop pf v (AllBidsList d) random_indices [] with
                 | Raise e => Rand.Ret (Raise e)
                 | Ok [] => Rand.choice (AllBidsList d)
                 | Ok similar => Rand.choice similar
                 end)).
Proof.
  split.
  - intros e. split; reflexivity.
  - intros v. cbv zeta. split; [reflexivity |].
    unfold find_bid.
    cbn [attr profile set_settings getProfile last_received_bid init
         getUtility utility_None getDomain].
    cbv zeta. unfold Rand.sample.
    destruct (Rand.sys_maxsize <? Z.of_nat (length (AllBidsList d)))%Z;
      [reflexivity |].
    replace (Nat.min _ max_bids_to_check <=? _) with true
      by (symmetry; apply Nat.leb_le, Nat.le_min_l).
    reflexivity.
Qed.

(** C4.  In the example session the bid space has two bids, and the agent
    has its settings but no offer yet: the search returns no bid, its only
    run ends with [AttributeError]. *)
Theorem find_bid_first_turn_error :
  length (AllBidsList (getDomain Example.prof)) = 2
  /\ profile Example.started = Some Example.prof
  /\ last_received_bid Example.started = None
  /\ find_bid Example.started = Rand.Ret (Raise AttributeError)
  /\ Rand.returns (find_bid Example.started) (Raise AttributeError).
Proof.
  repeat split. constructor.
Qed.

(** ** The turn *)

(** With a last received bid, a profile, a progress and a non-empty bid
    space of at most [sys.maxsize] bids, a turn hands exactly one action to
    the connection: the offer of the bid the search returned or, when
    [accept] says so, the acceptance of the last received bid. *)
Lemma my_turn_sends_one_action (st : State) (pf : Profile) (pg : Progress)
    (last : Bid) (now : float) (r : result unit) (st' : State) :
  profile st = Some pf -> progress st = Some pg ->
  last_received_bid st = Some last ->
  AllBidsList (getDomain pf) <> [] ->
  (Z.of_nat (length (AllBidsList (getDomain pf))) <= Rand.sys_maxsize)%Z ->
  Rand.returns (my_turn st now) (r, st') ->
  r = Ok tt
  /\ exists bid action,
       Rand.returns (find_bid st) (Ok bid)
       /\ st' = send_action st action
       /\ sent st' = sent st ++ [action]
       /\ ((accept st bid (Some last) T_default now = Ok true
            /\ action = Accept (me st) (Some last))
           \/ (accept st bid (Some last) T_default now = Ok false
               /\ action = Offer (me st) bid)).
Proof.
  intros Hpf Hpg Hlast Hne Hfit H.
  unfold my_turn in H. apply RandFacts.returns_bind_inv in H.
  destruct H as [rb [Hfind Hk]].
  destruct (find_bid_member st pf last Hpf Hlast Hne Hfit) as [_ Hmem].
  destruct (Hmem rb Hfind) as [bid [-> _]].
  rewrite Hlast in Hk.
  pose proof (accept_unfold st pf pg bid last T_default now Hpf Hpg) as Hacc.
  rewrite Hacc in Hk.
  destruct (Dec.gtb (utility pf last) (utility pf bid)
            || (T_default <? get pg (now * 1000))%float)%bool eqn:Ed;
    apply RandFacts.returns_Ret_inv in Hk; inversion Hk; subst;
    (split; [reflexivity |]); exists bid; eexists;
    (split; [exact Hfind |]); (split; [reflexivity |]); (split; [reflexivity |]);
    rewrite Hacc.
  - left. split; reflexivity.
  - right. split; reflexivity.
Qed.

(** On a bid space of more than [sys.maxsize] bids the turn raises
    [OverflowError] out of the search and sends nothing. *)
Lemma my_turn_overflow (st : State) (pf : Profile) (last : Bid) (now : float)
    (r : result unit) (st' : State) :
  profile st = Some pf -> last_received_bid st = Some last ->
  (Rand.sys_maxsize < Z.of_nat (length (AllBidsList (getDomain pf))))%Z ->
  Rand.returns (my_turn st now) (r, st') ->
  r = Raise OverflowError /\ st' = st.
Proof.
  intros Hpf Hlast Hbig H. unfold my_turn in H.
  rewrite (find_bid_overflow st pf last Hpf Hlast Hbig) in H.
  cbn [Rand.bind] in H.
  apply RandFacts.returns_Ret_inv in H. inversion H. split; reflexivity.
Qed.

(** C9.  In the example session the agent is given the floor before any
    offer was made.  The notification raises [AttributeError] out of the
    search, the agent is left as it was, and nothing was handed to the
    connection: the turn emits no action. *)
Theorem notifyChange_first_turn_sends_nothing (now : float) :
  last_received_bid Example.started = None
  /\ sent Example.started = []
  /\ notifyChange Example.started YourTurn now
     = Rand.Ret (Raise AttributeError, Example.started)
  /\ Rand.returns (notifyChange Example.started YourTurn now)
       (Raise AttributeError, Example.started).
Proof.
  repeat split. constructor.
Qed.

(** ** The search and the opponent model *)

(** C8.  The search reads the profile (and through it the domain and the
    utility function) and the last received bid, and nothing else: two
    states that agree on these, whatever their opponent models, run the same
    search, with the same possible results and the same probabilities. *)
Theorem find_bid_ignores_opponent_model (s1 s2 : State) :
  profile s1 = profile s2 ->
  last_received_bid s1 = last_received_bid s2 ->
  find_bid s1 = find_bid s2
  /\ (forall r, Rand.returns (find_bid s1) r <-> Rand.returns (find_bid s2) r)
  /\ (forall P, Rand.prob (find_bid s1) P = Rand.prob (find_bid s2) P).
Proof.
  intros Hpf Hlast.
  assert (E : find_bid s1 = find_bid s2).
  { unfold find_bid. rewrite Hpf, Hlast. reflexivity. }
  rewrite E. repeat split; auto.
Qed.

(** One state has an opponent model that saw an offer, the other has none. *)
Lemma find_bid_ignores_opponent_model_witness :
  opponent_model (Example.after_offer Example.bid1) = Some 0
  /\ opponent_model Example.no_model = None
  /\ find_bid (Example.after_offer Example.bid1) = find_bid Example.no_model
  /\ (forall r, Rand.returns (find_bid (Example.after_offer Example.bid1)) r
                <-> Rand.returns (find_bid Example.no_model) r)
  /\ (forall P, Rand.prob (find_bid (Example.after_offer Example.bid1)) P
                = Rand.prob (find_bid Example.no_model) P).
Proof.
  split; [reflexivity |]. split; [reflexivity |].
  apply (find_bid_ignores_opponent_model
           (Example.after_offer Example.bid1) Example.no_model); reflexivity.
Defined.

(** ** Notifications and the session state *)

Lemma heap_update_length (h : list OpponentModel) (r : nat)
    (f : OpponentModel -> OpponentModel) :
  length (heap_update h r f) = length h.
Proof.
  revert r. induction h as [| m h IH]; intros [| r]; simpl; auto.
Qed.

(** what [opponent_action] does to the last received bid, the reference to
    the opponent model and the objects constructed so far *)
Lemma opponent_action_effect (st : State) (action : Action) :
  match action with
  | Offer _ bid =>
      last_received_bid (opponent_action st action) = Some bid
      /\ opponent_model (opponent_action st action)
         = Some (match opponent_model st with
                 | None => length (heap st)
                 | Some r => r
                 end)
      /\ length (heap (opponent_action st action))
         = match opponent_model st with
           | None => S (length (heap st))
           | Some _ => length (heap st)
           end
  | _ => opponent_action st action = st
  end.
Proof.
  destruct action as [actor bid | actor bid | actor]; try reflexivity.
  unfold opponent_action.
  destruct (opponent_model st) as [r |] eqn:E.
  - unfold update_opponent_model. rewrite E. simpl.
    rewrite heap_update_length. auto.
  - unfold update_opponent_model. simpl.
    rewrite heap_update_length, length_app. simpl.
    repeat split; auto. lia.
Qed.

(** An [ActionDone] is handled without a draw and without an exception. *)
Lemma notifyChange_ActionDone (st : State) (action : Action) (now : float) :
  notifyChange st (ActionDone action) now =
    Rand.Ret (Ok tt,
              if negb (PartyId_eqb (getActor action) (me st))
              then opponent_action
                     (set_other st (rsplit_underscore_head (str_option (getActor action))))
                     action
              else st).
Proof.
  simpl. destruct (negb _); reflexivity.
Qed.

(** C10.  An [ActionDone] notification returns without raising, and it
    changes the last received bid and the opponent model (the reference as
    well as the objects behind it) only when the action is an offer made by
    another party: an action of the agent itself leaves them as they are, and
    so does an action that is not an offer; an offer by another party becomes
    the last received bid. *)
Theorem notifyChange_ActionDone_frame (st : State) (action : Action) (now : float) :
  exists st' : State,
    notifyChange st (ActionDone action) now = Rand.Ret (Ok tt, st')
    /\ (PartyId_eqb (getActor action) (me st) = true ->
        last_received_bid st' = last_received_bid st
        /\ opponent_model st' = opponent_model st
        /\ heap st' = heap st)
    /\ ((forall actor bid, action <> Offer actor bid) ->
        last_received_bid st' = last_received_bid st
        /\ opponent_model st' = opponent_model st
        /\ heap st' = heap st)
    /\ (last_received_bid st' <> last_received_bid st
        \/ opponent_model st' <> opponent_model st
        \/ heap st' <> heap st ->
        exists actor bid,
          action = Offer actor bid /\ PartyId_eqb actor (me st) = false)
    /\ (forall actor bid,
          action = Offer actor bid -> PartyId_eqb actor (me st) = false ->
          last_received_bid st' = Some bid /\ opponent_model st' <> None).
Proof.
  eexists. split; [apply notifyChange_ActionDone |].
  destruct (PartyId_eqb (getActor action) (me st)) eqn:Eme; simpl.
  - split; [auto |]. split; [auto |]. split.
    + intros [H | [H | H]]; congruence.
    + intros actor bid -> Hne. simpl in Eme. congruence.
  - pose proof (opponent_action_effect
                  (set_other st (rsplit_underscore_head (str_option (getActor action))))
                  action) as Heff.
    destruct action as [actor bid | actor bid | actor].
    + destruct Heff as [Hl [Hm Hh]].
      split; [discriminate |].
      split; [intros Hno; exfalso; exact (Hno actor bid eq_refl) |].
      split; [intros _; exists actor, bid; split; [reflexivity | exact Eme] |].
      intros actor' bid' Heq _. inversion Heq; subst.
      split; [exact Hl |]. rewrite Hm. discriminate.
    + rewrite Heff. simpl.
      split; [discriminate |]. split; [auto |].
      split; [intros [H | [H | H]]; congruence |].
      intros actor' bid' Heq. discriminate.
    + rewrite Heff. simpl.
      split; [discriminate |]. split; [auto |].
      split; [intros [H | [H | H]]; congruence |].
      intros actor' bid' Heq. discriminate.
Qed.

(** The agent "me_1" is told of its own offer, of the acceptance by
    "them_2", and of an offer by "them_2". *)
Lemma notifyChange_ActionDone_frame_witness :
  (exists st',
     notifyChange (Example.after_offer Example.bid1)
       (ActionDone (Offer (Some "me_1"%string) Example.bid2)) 0
     = Rand.Ret (Ok tt, st')
     /\ last_received_bid st' = Some Example.bid1
     /\ opponent_model st' = Some 0
     /\ heap st' = heap (Example.after_offer Example.bid1))
  /\ (exists st',
        notifyChange (Example.after_offer Example.bid1)
          (ActionDone (Accept (Some "them_2"%string) (Some Example.bid1))) 0
        = Rand.Ret (Ok tt, st')
        /\ last_received_bid st' = Some Example.bid1
        /\ opponent_model st' = Some 0
        /\ heap st' = heap (Example.after_offer Example.bid1))
  /\ (exists st',
        notifyChange (Example.after_offer Example.bid1)
          (ActionDone (Offer (Some "them_2"%string) Example.bid2)) 0
        = Rand.Ret (Ok tt, st')
        /\ last_received_bid st' = Some Example.bid2).
Proof.
  split; [| split].
  - destruct (notifyChange_ActionDone_frame (Example.after_offer Example.bid1)
                (Offer (Some "me_1"%string) Example.bid2) 0)
      as [st' [Hrun [Hown _]]].
    exists st'. split; [exact Hrun |]. apply Hown. reflexivity.
  - destruct (notifyChange_ActionDone_frame (Example.after_offer Example.bid1)
                (Accept (Some "them_2"%string) (Some Example.bid1)) 0)
      as [st' [Hrun [_ [Hother _]]]].
    exists st'. split; [exact Hrun |]. apply Hother. intros actor bid. discriminate.
  - destruct (notifyChange_ActionDone_frame (Example.after_offer Example.bid1)
                (Offer (Some "them_2"%string) Example.bid2) 0)
      as [st' [Hrun [_ [_ [_ Hoffer]]]]].
    exists st'. split; [exact Hrun |].
    apply (Hoffer (Some "them_2"%string) Example.bid2); reflexivity.
Defined.

Lemma opponent_action_me (st : State) (action : Action) :
  me (opponent_action st action) = me st.
Proof.
  destruct action as [actor bid | actor bid | actor]; try reflexivity.
  unfold opponent_action.
  destruct (opponent_model st) as [r |] eqn:E; unfold update_opponent_model;
    [rewrite E | simpl]; reflexivity.
Qed.

(** A turn leaves the session state alone, but for the connection. *)
Lemma my_turn_frame (st : State) (now : float) (r : result unit) (st' : State) :
  Rand.returns (my_turn st now) (r, st') ->
  me st' = me st
  /\ last_received_bid st' = last_received_bid st
  /\ opponent_model st' = opponent_model st
  /\ heap st' = heap st.
Proof.
  intros H. unfold my_turn in H.
  apply RandFacts.returns_bind_inv in H. destruct H as [rb [_ Hk]].
  destruct rb as [bid | e].
  - destruct (accept st bid (last_received_bid st) T_default now) as [[|] | e];
      apply RandFacts.returns_Ret_inv in Hk; inversion Hk; subst; simpl; auto.
  - apply RandFacts.returns_Ret_inv in Hk. inversion Hk; subst. auto.
Qed.

(** One notification: the agent's id follows the settings; an offer of
    another party sets the reference to the opponent model, constructing the
    object when there was none; any other message keeps the reference and
    the constructed objects. *)
Lemma notifyChange_opponent_model (st : State) (data : Inform) (now : float)
    (r : result unit) (st' : State) :
  Rand.returns (notifyChange st data now) (r, st') ->
  me st' = me_after (me st) data
  /\ if is_opponent_offer (me st) data
     then opponent_model st'
          = Some (match opponent_model st with
                  | None => length (heap st)
                  | Some x => x
                  end)
          /\ length (heap st')
             = match opponent_model st with
               | None => S (length (heap st))
               | Some _ => length (heap st)
               end
     else opponent_model st' = opponent_model st /\ heap st' = heap st.
Proof.
  intros H. destruct data as [s | action | | |].
  - apply RandFacts.returns_Ret_inv in H. inversion H; subst. simpl. auto.
  - rewrite notifyChange_ActionDone in H.
    apply RandFacts.returns_Ret_inv in H. inversion H; subst. clear H.
    destruct (PartyId_eqb (getActor action) (me st)) eqn:Eme; simpl negb; cbv iota.
    + split; [reflexivity |].
      destruct action as [actor bid | actor bid | actor]; simpl in *;
        try rewrite Eme; simpl; auto.
    + split; [rewrite opponent_action_me; reflexivity |].
      pose proof (opponent_action_effect
                    (set_other st (rsplit_underscore_head (str_option (getActor action))))
                    action) as Heff.
      destruct action as [actor bid | actor bid | actor].
      * simpl in Eme. simpl is_opponent_offer. rewrite Eme. simpl negb. cbv iota.
        destruct Heff as [_ [Hm Hh]]. split; [exact Hm | exact Hh].
      * rewrite Heff. simpl. auto.
      * rewrite Heff. simpl. auto.
  - apply my_turn_frame in H. simpl. intuition.
  - apply RandFacts.returns_Ret_inv in H. inversion H; subst. simpl. auto.
  - apply RandFacts.returns_Ret_inv in H. inversion H; subst. simpl. auto.
Qed.

(** Once the agent holds an opponent model it holds that same object for
    good, and constructs no other. *)
Lemma run_keeps_opponent_model (st st' : State) (trace : list (Inform * float))
    (ref : nat) :
  run st trace st' ->
  opponent_model st = Some ref ->
  opponent_model st' = Some ref /\ length (heap st') = length (heap st).
Proof.
  induction 1 as [st | st st1 st2 data now r trace Hstep Hrun IH]; intros Href.
  - auto.
  - apply notifyChange_opponent_model in Hstep. destruct Hstep as [_ Hstep].
    rewrite Href in Hstep.
    assert (H1 : opponent_model st1 = Some ref /\ length (heap st1) = length (heap st)).
    { destruct (is_opponent_offer (me st) data).
      - exact Hstep.
      - destruct Hstep as [Hm Hh]. rewrite Hm, Hh. auto. }
    destruct H1 as [Hm1 Hh1]. destruct (IH Hm1) as [Hm2 Hh2].
    split; [exact Hm2 | congruence].
Qed.

(** An agent without an opponent model stays without one as long as no
    other party makes an offer, and constructs exactly one at the first such
    offer. *)
Lemma run_creates_opponent_model (st st' : State) (trace : list (Inform * float)) :
  run st trace st' ->
  opponent_model st = None ->
  (opponent_offers (me st) trace = 0 ->
   opponent_model st' = None /\ heap st' = heap st)
  /\ (0 < opponent_offers (me st) trace ->
      opponent_model st' = Some (length (heap st))
      /\ length (heap st') = S (length (heap st))).
Proof.
  induction 1 as [st | st st1 st2 data now r trace Hstep Hrun IH]; intros Hnone.
  - simpl. split; [auto | lia].
  - pose proof (notifyChange_opponent_model _ _ _ _ _ Hstep) as [Hme Heff].
    simpl. rewrite <- Hme. rewrite Hnone in Heff.
    destruct (is_opponent_offer (me st) data).
    + destruct Heff as [Hm1 Hh1].
      destruct (run_keeps_opponent_model _ _ _ _ Hrun Hm1) as [Hm2 Hh2].
      split; [lia |]. intros _. split; [exact Hm2 | congruence].
    + destruct Heff as [Hm1 Hh1].
      destruct (IH Hm1) as [IH0 IH1]. rewrite Hh1 in IH0, IH1.
      split; [intros H0; apply IH0; lia | intros H1; apply IH1; lia].
Qed.

(** C7.  Over a whole session, from the construction of the agent: as long
    as no other party has made an offer the agent has no opponent model and
    has constructed none; from the first such offer on it holds the one it
    constructed then, and one is all it ever constructs; and an agent that
    holds an opponent model holds the same object after any further
    messages, with no new one constructed. *)
Theorem opponent_model_created_once (trace : list (Inform * float)) (st : State) :
  run init trace st ->
  length (heap st) <= 1
  /\ (opponent_offers None trace = 0 ->
      opponent_model st = None /\ heap st = [])
  /\ (0 < opponent_offers None trace ->
      opponent_model st = Some 0 /\ length (heap st) = 1)
  /\ (forall (trace' : list (Inform * float)) (st' : State) (ref : nat),
        run st trace' st' ->
        opponent_model st = Some ref ->
        opponent_model st' = Some ref
        /\ length (heap st') = length (heap st)).
Proof.
  intros Hrun.
  destruct (run_creates_opponent_model init st trace Hrun eq_refl) as [H0 H1].
  simpl in H0, H1.
  split; [| split; [exact H0 | split; [exact H1 |]]].
  - destruct (opponent_offers None trace) as [| n] eqn:E.
    + destruct (H0 eq_refl) as [_ Hh]. rewrite Hh. simpl. lia.
    + destruct H1 as [_ Hh]; [lia |]. rewrite Hh. lia.
  - intros trace' st' ref Hrun' Href.
    exact (run_keeps_opponent_model st st' trace' ref Hrun' Href).
Qed.

(** the example session can be run *)
Lemma Example_session_runs : exists st, run init Example.trace st.
Proof.
  unfold Example.trace. eexists.
  eapply run_cons; [apply Rand.returns_Ret |].
  eapply run_cons; [rewrite notifyChange_ActionDone; apply Rand.returns_Ret |].
  eapply run_cons.
  { simpl notifyChange. unfold my_turn.
    eapply RandFacts.returns_bind with (a := Ok Example.bid1).
    - eapply (find_bid_returns _ Example.prof Example.bid1);
        [reflexivity | reflexivity | discriminate | vm_compute; discriminate |].
      exists [0; 1], Example.bid1. split.
      + repeat split.
        * repeat constructor; simpl; intuition discriminate.
        * repeat constructor.
      + split; [reflexivity |]. vm_compute. left. reflexivity.
    - vm_compute. apply Rand.returns_Ret. }
  eapply run_cons; [rewrite notifyChange_ActionDone; apply Rand.returns_Ret |].
  eapply run_cons; [apply Rand.returns_Ret |].
  apply run_nil.
Defined.

(** The example session brings two offers of the other party; one opponent
    model is constructed, at the first. *)
Lemma opponent_model_created_once_witness :
  opponent_offers None Example.trace = 2
  /\ exists st,
       run init Example.trace st
       /\ length (heap st) <= 1
       /\ (opponent_offers None Example.trace = 0 ->
           opponent_model st = None /\ heap st = [])
       /\ (0 < opponent_offers None Example.trace ->
           opponent_model st = Some 0 /\ length (heap st) = 1)
       /\ (forall (trace' : list (Inform * float)) (st' : State) (ref : nat),
             run st trace' st' ->
             opponent_model st = Some ref ->
             opponent_model st' = Some ref
             /\ length (heap st') = length (heap st)).
Proof.
  split; [reflexivity |].
  destruct Example_session_runs as [st Hrun].
  exists st. split; [exact Hrun |].
  exact (opponent_model_created_once Example.trace st Hrun).
Defined.

(** ** The scoring function *)

(** C5.  With [eps] not zero and the power defined, [score_bid] computes
    [time_pressure = 1 - progress ** (1 / eps)] and returns
    [alpha * time_pressure * own_utility(bid)] when the agent has no opponent
    model, and that quantity plus
    [(1 - alpha * time_pressure) * predicted_opponent_utility(bid)] when it
    has one; all the operations are those of binary64 floats. *)
Theorem score_bid_formula
    (float_pow : float -> float -> result float)
    (float_of_Decimal : Dec.t -> float)
    (get_predicted_utility : OpponentModel -> Bid -> float)
    (st : State) (pf : Profile) (pg : Progress) (bid : Bid)
    (alpha eps now power : float) :
  profile st = Some pf -> progress st = Some pg ->
  (eps =? 0)%float = false ->
  float_pow (get pg (now * 1000)%float) (1 / eps)%float = Ok power ->
  let time_pressure := (1 - power)%float in
  let own_utility := float_of_Decimal (utility pf bid) in
  (opponent_model st = None ->
   score_bid float_pow float_of_Decimal get_predicted_utility st bid alpha eps now
   = Ok (alpha * time_pressure * own_utility)%float)
  /\
  (forall (ref : nat) (model : OpponentModel),
     opponent_model st = Some ref -> nth_error (heap st) ref = Some model ->
     score_bid float_pow float_of_Decimal get_predicted_utility st bid alpha eps now
     = Ok (alpha * time_pressure * own_utility
           + (1 - alpha * time_pressure) * get_predicted_utility model bid)%float).
Proof.
  intros Hpf Hpg Heps Hpow. cbv zeta.
  unfold score_bid, float_div. rewrite Hpf, Hpg, Heps. simpl.
  rewrite Hpow. simpl.
  split.
  - intros ->. reflexivity.
  - intros ref model -> Hm. unfold deref. rewrite Hm. reflexivity.
Qed.

(** The formula at the defaults [alpha = 0.95] and [eps = 0.1], for which
    [1 / eps] is 10, half-way through the example session: without an
    opponent model, and with the one that saw the first offer. *)
Lemma score_bid_formula_witness :
  (1 / eps_default = 10)%float
  /\ score_bid Example.pow Example.float_of_Decimal Example.predict
       Example.no_model Example.bid1 alpha_default eps_default 50
     = Ok (alpha_default * (1 - 0.0009765625) * 1)%float
  /\ score_bid Example.pow Example.float_of_Decimal Example.predict
       (Example.after_offer Example.bid1) Example.bid1 alpha_default eps_default 50
     = Ok (alpha_default * (1 - 0.0009765625) * 1
           + (1 - alpha_default * (1 - 0.0009765625)) * 0.5)%float.
Proof.
  split; [reflexivity |].
  split.
  - pose proof (score_bid_formula Example.pow Example.float_of_Decimal Example.predict
                  Example.no_model Example.prof Example.prog Example.bid1
                  alpha_default eps_default 50 0.0009765625
                  eq_refl eq_refl eq_refl eq_refl) as [H _].
    apply H. reflexivity.
  - pose proof (score_bid_formula Example.pow Example.float_of_Decimal Example.predict
                  (Example.after_offer Example.bid1) Example.prof Example.prog
                  Example.bid1 alpha_default eps_default 50 0.0009765625
                  eq_refl eq_refl eq_refl eq_refl) as [_ H].
    apply (H 0 (mkOpponentModel (Some Example.dom)
                  [("A"%string, [("a1"%string, 1)])])); reflexivity.
Defined.

(** ** Rounding to the precision of the context *)

Module DecRounding.

Lemma ndigits_aux_zero (fuel : nat) : Dec.ndigits_aux fuel 0 = 0%Z.
Proof. destruct fuel; reflexivity. Qed.

Lemma log2_div10 (n : Z) : (10 <= n)%Z -> (Z.log2 (n / 10) < Z.log2 n)%Z.
Proof.
  intros Hn.
  assert (Hq : (0 < n / 10)%Z) by (apply Z.div_str_pos; lia).
  apply Z.log2_lt_pow2; [exact Hq |].
  pose proof (Z.log2_spec n ltac:(lia)) as [_ Hup].
  replace (Z.succ (Z.log2 n)) with (1 + Z.log2 n)%Z in Hup by lia.
  rewrite Z.pow_add_r in Hup by (try lia; apply Z.log2_nonneg).
  change (2 ^ 1)%Z with 2%Z in Hup.
  apply Z.div_lt_upper_bound; lia.
Qed.

(** a number with [d] decimal digits is at least [10 ^ (d - 1)] *)
Lemma ndigits_aux_lower (fuel : nat) (n : Z) :
  (0 < n)%Z -> (Z.log2 n < Z.of_nat fuel)%Z ->
  (1 <= Dec.ndigits_aux fuel n)%Z
  /\ (10 ^ (Dec.ndigits_aux fuel n - 1) <= n)%Z.
Proof.
  revert n. induction fuel as [| fuel IH]; intros n Hn Hfuel.
  - pose proof (Z.log2_nonneg n). lia.
  - cbn [Dec.ndigits_aux].
    destruct (Z.eqb_spec n 0) as [-> | _]; [lia |].
    destruct (Z_lt_le_dec n 10) as [Hsmall | Hbig].
    + rewrite Z.div_small by lia. rewrite ndigits_aux_zero.
      simpl. lia.
    + assert (Hq : (0 < n / 10)%Z) by (apply Z.div_str_pos; lia).
      pose proof (log2_div10 n Hbig) as Hlog.
      destruct (IH (n / 10)%Z Hq ltac:(lia)) as [H1 H10].
      split; [lia |].
      replace (1 + Dec.ndigits_aux fuel (n / 10) - 1)%Z
        with (1 + (Dec.ndigits_aux fuel (n / 10) - 1))%Z by lia.
      rewrite Z.pow_add_r by lia. change (10 ^ 1)%Z with 10%Z.
      pose proof (Z.mul_div_le n 10 ltac:(lia)). lia.
Qed.

Lemma ndigits_aux_upper (fuel : nat) (n : Z) :
  (0 <= n)%Z -> (Z.log2 n < Z.of_nat fuel)%Z ->
  (n < 10 ^ Dec.ndigits_aux fuel n)%Z.
Proof.
  revert n. induction fuel as [| fuel IH]; intros n Hn Hfuel.
  - pose proof (Z.log2_nonneg n). lia.
  - cbn [Dec.ndigits_aux].
    destruct (Z.eqb_spec n 0) as [-> | Hnz]; [reflexivity |].
    destruct (Z_lt_le_dec n 10) as [Hsmall | Hbig].
    + rewrite Z.div_small by lia. rewrite ndigits_aux_zero. simpl. lia.
    + assert (Hq : (0 < n / 10)%Z) by (apply Z.div_str_pos; lia).
      pose proof (log2_div10 n Hbig) as Hlog.
      destruct (ndigits_aux_lower fuel (n / 10)%Z Hq ltac:(lia)) as [H1 _].
      pose proof (IH (n / 10)%Z ltac:(lia) ltac:(lia)) as Hup.
      rewrite Z.pow_add_r by lia. change (10 ^ 1)%Z with 10%Z.
      pose proof (Z.div_mod n 10 ltac:(lia)).
      pose proof (Z.mod_pos_bound n 10 ltac:(lia)). lia.
Qed.

(** [ndigits] counts the decimal digits:
    [10 ^ (ndigits n - 1) <= |n| < 10 ^ ndigits n] *)
Lemma ndigits_lower (n : Z) :
  n <> 0%Z ->
  (1 <= Dec.ndigits n)%Z /\ (10 ^ (Dec.ndigits n - 1) <= Z.abs n)%Z.
Proof.
  intros Hn. unfold Dec.ndigits.
  apply ndigits_aux_lower; [lia |].
  pose proof (Z.log2_nonneg (Z.abs n)). lia.
Qed.

Lemma ndigits_upper (n : Z) : (Z.abs n < 10 ^ Dec.ndigits n)%Z.
Proof.
  unfold Dec.ndigits. apply ndigits_aux_upper; [lia |].
  pose proof (Z.log2_nonneg (Z.abs n)). lia.
Qed.

Lemma div_half_even_pos (n d : Z) :
  (0 < d)%Z -> (d <= n)%Z -> (1 <= Dec.div_half_even n d)%Z.
Proof.
  intros Hd Hn. unfold Dec.div_half_even.
  assert (Hq : (1 <= n / d)%Z) by (apply Z.div_le_lower_bound; lia).
  destruct (2 * (n mod d) <? d)%Z; [lia |].
  destruct (d <? 2 * (n mod d))%Z; [lia |].
  destruct (Z.even (n / d)); lia.
Qed.

(** rounding to the precision of the context keeps a negative number
    negative *)
Lemma fix_prec_neg (d : Dec.t) :
  (Dec.coeff d < 0)%Z -> (Dec.coeff (Dec.fix_prec d) < 0)%Z.
Proof.
  intros Hneg. unfold Dec.fix_prec.
  destruct (Z.leb_spec (Dec.ndigits (Dec.coeff d) - Dec.prec) 0) as [Hk | Hk];
    [exact Hneg |].
  cbn [Dec.coeff].
  destruct (ndigits_lower (Dec.coeff d) ltac:(lia)) as [_ Hlow].
  set (k := (Dec.ndigits (Dec.coeff d) - Dec.prec)%Z) in *.
  assert (Hpow : (10 ^ k <= Z.abs (Dec.coeff d))%Z).
  { eapply Z.le_trans; [| exact Hlow].
    apply Z.pow_le_mono_r; [lia |]. subst k. unfold Dec.prec. lia. }
  pose proof (div_half_even_pos (Z.abs (Dec.coeff d)) (10 ^ k)
                ltac:(apply Z.pow_pos_nonneg; lia) Hpow) as Hpos.
  rewrite Z.sgn_neg by exact Hneg. lia.
Qed.

Lemma sub_neg (a b : Dec.t) :
  Dec.compare a b = Lt -> (Dec.coeff (Dec.sub a b) < 0)%Z.
Proof.
  intros Hlt. unfold Dec.sub. apply fix_prec_neg.
  unfold Dec.sub_exact. cbv zeta. cbn [Dec.coeff].
  unfold Dec.compare in Hlt. cbv zeta in Hlt.
  rewrite Z.compare_lt_iff in Hlt. lia.
Qed.

Lemma value_neg (d : Dec.t) : (Dec.coeff d < 0)%Z -> (Dec.value d < 0)%Q.
Proof.
  intros Hneg. unfold Dec.value.
  setoid_replace 0%Q with (0 * Qpower (10 # 1) (Dec.expn d))%Q by ring.
  apply Qmult_lt_compat_r; [apply DecFacts.ten_pos |].
  change 0%Q with (inject_Z 0). rewrite <- Zlt_Qlt. exact Hneg.
Qed.

(** a difference that is negative before rounding is negative after it *)
Lemma sub_value_neg (a b : Dec.t) :
  (Dec.value a < Dec.value b)%Q -> (Dec.value (Dec.sub a b) < 0)%Q.
Proof.
  intros Hlt. apply value_neg, sub_neg.
  rewrite DecFacts.compare_value. apply Qlt_alt. exact Hlt.
Qed.

End DecRounding.

(** ** The degenerate concession filter *)

Lemma arrangements_In (pool : list nat) (k : nat) (l : list nat) :
  In l (Rand.arrangements pool k) ->
  length l = k /\ Forall (fun i => In i pool) l.
Proof.
  revert pool l. induction k as [| k IH]; intros pool l Hin; simpl in Hin.
  - destruct Hin as [<- | []]. split; [reflexivity | constructor].
  - apply in_flat_map in Hin. destruct Hin as [x [Hx Hl]].
    apply in_map_iff in Hl. destruct Hl as [l' [<- Hl']].
    destruct (IH _ _ Hl') as [Hlen Hall].
    split; [simpl; congruence |].
    constructor; [exact Hx |].
    eapply Forall_impl; [| exact Hall].
    intros i Hi. apply in_remove in Hi. tauto.
Qed.

Lemma filter_all {A : Type} (f : A -> bool) (l : list A) :
  (forall x, In x l -> f x = true) -> filter f l = l.
Proof.
  induction l as [| x l IH]; intros H; simpl; [reflexivity |].
  rewrite (H x (or_introl eq_refl)). f_equal. apply IH.
  intros y Hy. apply H. right. exact Hy.
Qed.

(** When every bid of the bid space passes the concession test, the search
    chooses among all the sampled bids. *)
Lemma find_bid_cont_unfiltered (pf : Profile) (prev : Dec.t) (l : list nat) :
  let all_bids := AllBidsList (getDomain pf) in
  (forall b, In b all_bids -> passes_concession pf prev b = true) ->
  Forall (fun i => i < length all_bids) l ->
  length l = Nat.min (length all_bids) max_bids_to_check ->
  match similar_loop pf prev all_bids l [] with
  | Raise e => Rand.Ret (Raise e)
  | Ok [] => Rand.choice all_bids
  | Ok similar => Rand.choice similar
  end = Rand.choice (bids_at all_bids l).
Proof.
  intros all_bids Hpass Hall Hlen.
  rewrite (similar_loop_filter pf prev all_bids l [] Hall). simpl.
  rewrite filter_all by (intros b Hb; apply Hpass; eapply bids_at_In; eauto).
  destruct (bids_at all_bids l) as [| b bs] eqn:E; [| reflexivity].
  destruct l as [| i rest].
  - simpl in Hlen. destruct all_bids as [| b0 rest0]; [reflexivity |].
    simpl in Hlen. unfold max_bids_to_check in Hlen. discriminate.
  - inversion Hall as [| ? ? Hi _]; subst.
    unfold bids_at in E. simpl in E.
    destruct (nth_error all_bids i) eqn:En; [discriminate |].
    apply nth_error_None in En. lia.
Qed.

Lemma returns_Sample_ext {A : Type} (n k : nat) (c1 c2 : list nat -> Rand.t A) (a : A) :
  (forall l, Rand.is_sample n k l -> c1 l = c2 l) ->
  Rand.returns (Rand.Sample n k c1) a -> Rand.returns (Rand.Sample n k c2) a.
Proof.
  intros Hext H. inversion H as [| n' k' cont l a' Hs Hr |]; subst.
  eapply Rand.returns_Sample; [exact Hs |]. rewrite <- (Hext l Hs). exact Hr.
Qed.

Lemma prob_Sample_ext {A : Type} (n k : nat) (c1 c2 : list nat -> Rand.t A)
    (P : A -> bool) :
  (forall l, length l = k -> Forall (fun i => i < n) l -> c1 l = c2 l) ->
  Rand.prob (Rand.Sample n k c1) P = Rand.prob (Rand.Sample n k c2) P.
Proof.
  intros Hext. simpl. f_equal. apply map_ext_in. intros l Hl.
  apply arrangements_In in Hl. destruct Hl as [Hlen Hall].
  rewrite Hext; [reflexivity | exact Hlen |].
  eapply Forall_impl; [| exact Hall].
  intros i Hi. apply in_seq in Hi. lia.
Qed.

Lemma choose_from_sample_unfold (pf : Profile) :
  (Z.of_nat (length (AllBidsList (getDomain pf))) <= Rand.sys_maxsize)%Z ->
  choose_from_sample pf =
    Rand.Sample (length (AllBidsList (getDomain pf)))
      (Nat.min (length (AllBidsList (getDomain pf))) max_bids_to_check)
      (fun random_indices =>
         Rand.choice (bids_at (AllBidsList (getDomain pf)) random_indices)).
Proof.
  intros Hfit. unfold choose_from_sample. cbv zeta.
  rewrite (RandFacts.sample_within _ _ Hfit (Nat.le_min_l _ _)).
  reflexivity.
Qed.

Lemma choose_from_sample_overflow (pf : Profile) :
  (Rand.sys_maxsize < Z.of_nat (length (AllBidsList (getDomain pf))))%Z ->
  choose_from_sample pf = Rand.Ret (Raise OverflowError).
Proof.
  intros Hbig. unfold choose_from_sample. cbv zeta.
  rewrite (RandFacts.sample_overflow _ _ Hbig).
  reflexivity.
Qed.

(** C6.  In the example session where the last received bid is worth 0.5 to
    the agent, the threshold of the concession test is not -0.4: the margin
    the search subtracts is [Decimal(0.9)], the exact value of the binary
    float, and the difference, rounded to 28 digits, is
    -0.4000000000000000222044604925. *)
Lemma concession_threshold_at_half_is_not_minus_0_4 :
  last_received_bid Example.half = Some Example.bid1
  /\ utility Example.prof_half Example.bid1 = Dec.mk 5 (-1)
  /\ concession_threshold (Dec.mk 5 (-1))
     = Dec.mk (-4000000000000000222044604925) (-28)
  /\ ~ (Dec.value (concession_threshold (Dec.mk 5 (-1))) == - (4 # 10))%Q.
Proof.
  split; [reflexivity |]. split; [reflexivity |]. split; [vm_compute; reflexivity |].
  vm_compute. discriminate.
Qed.

(** * Further properties of the agent *)

(** ** Whole sessions *)

(** [opponent_action] touches the last received bid and the opponent model,
    and nothing else. *)
Lemma opponent_action_attrs (st : State) (action : Action) :
  let st' := opponent_action st action in
  settings st' = settings st /\ me st' = me st /\ progress st' = progress st
  /\ parameters st' = parameters st /\ profile st' = profile st
  /\ domain st' = domain st /\ storage_dir st' = storage_dir st
  /\ other st' = other st /\ sent st' = sent st /\ files st' = files st
  /\ terminated st' = terminated st.
Proof.
  destruct action as [actor bid | actor bid | actor]; cbv zeta;
    try (repeat split; reflexivity).
  unfold opponent_action.
  destruct (opponent_model st) as [r |] eqn:E; unfold update_opponent_model;
    [rewrite E | simpl]; repeat split; reflexivity.
Qed.

(** what a turn can do to the agent: nothing, when it raises; else hand one
    action to the connection, an offer or the acceptance of the last received
    bid, which is then a bid indeed *)
Lemma my_turn_cases (st : State) (now : float) (r : result unit) (st' : State) :
  Rand.returns (my_turn st now) (r, st') ->
  (exists e, r = Raise e /\ st' = st)
  \/ (r = Ok tt /\ exists bid, st' = send_action st (Offer (me st) bid))
  \/ (r = Ok tt /\ exists last,
        last_received_bid st = Some last
        /\ st' = send_action st (Accept (me st) (Some last))).
Proof.
  intros H. unfold my_turn in H.
  apply RandFacts.returns_bind_inv in H. destruct H as [rb [_ Hk]].
  destruct rb as [bid | e].
  - destruct (last_received_bid st) as [last |] eqn:Elast.
    + destruct (accept st bid (Some last) T_default now) as [[|] | e];
        apply RandFacts.returns_Ret_inv in Hk; inversion Hk; subst.
      * right. right. split; [reflexivity |]. exists last. split; reflexivity.
      * right. left. split; [reflexivity |]. exists bid. reflexivity.
      * left. exists e. split; reflexivity.
    + simpl in Hk. apply RandFacts.returns_Ret_inv in Hk. inversion Hk; subst.
      right. left. split; [reflexivity |]. exists bid. reflexivity.
  - apply RandFacts.returns_Ret_inv in Hk. inversion Hk; subst.
    left. exists e. split; reflexivity.
Qed.

(** One notification carries the agent from the settings in force to the
    settings read last. *)
Lemma notifyChange_session (st : State) (data : Inform) (now : float)
    (r : result unit) (st' : State) (current : option Settings) :
  Rand.returns (notifyChange st data now) (r, st') ->
  session_of current st ->
  session_of (latest_settings current [(data, now)]) st'.
Proof.
  intros H Hs. destruct data as [s | action | | |]; simpl latest_settings.
  - apply RandFacts.returns_Ret_inv in H. inversion H; subst.
    unfold session_of. simpl. repeat split; reflexivity.
  - rewrite notifyChange_ActionDone in H.
    apply RandFacts.returns_Ret_inv in H. inversion H; subst. clear H.
    destruct (negb _); [| exact Hs].
    pose proof (opponent_action_attrs
                  (set_other st (rsplit_underscore_head (str_option (getActor action))))
                  action) as Ha.
    cbv zeta in Ha. unfold session_of in *. simpl in Ha.
    destruct Ha as [H1 [H2 [H3 [H4 [H5 [H6 [H7 _]]]]]]].
    rewrite H1, H2, H3, H4, H5, H6, H7. exact Hs.
  - apply my_turn_cases in H.
    destruct H as [[e [_ ->]] | [[_ [bid ->]] | [_ [last [_ ->]]]]]; exact Hs.
  - apply RandFacts.returns_Ret_inv in H. inversion H; subst. exact Hs.
  - apply RandFacts.returns_Ret_inv in H. inversion H; subst. exact Hs.
Qed.

Lemma latest_settings_cons (current : option Settings) (data : Inform)
    (now : float) (trace : list (Inform * float)) :
  latest_settings current ((data, now) :: trace)
  = latest_settings (latest_settings current [(data, now)]) trace.
Proof. destruct data; reflexivity. Qed.

Lemma run_session (st st' : State) (trace : list (Inform * float))
    (current : option Settings) :
  run st trace st' -> session_of current st ->
  session_of (latest_settings current trace) st'.
Proof.
  intros Hrun. revert current.
  induction Hrun as [st | st st1 st2 data now r trace Hstep Hrun IH];
    intros current Hs.
  - exact Hs.
  - rewrite latest_settings_cons. apply IH.
    eapply notifyChange_session; eauto.
Qed.

(** X11.  At any point of a session the agent's id, progress, parameters,
    profile, domain and storage directory are those of the settings it read
    last (the domain being the profile's), and all unset before any
    settings. *)
Theorem session_follows_latest_settings (trace : list (Inform * float))
    (st : State) :
  run init trace st ->
  session_of (latest_settings None trace) st.
Proof.
  intros Hrun. apply (run_session init st trace None Hrun).
  unfold session_of. simpl. repeat split; reflexivity.
Qed.

Lemma heap_update_at (pre post : list OpponentModel) (m : OpponentModel)
    (f : OpponentModel -> OpponentModel) :
  heap_update (pre ++ m :: post) (length pre) f = pre ++ f m :: post.
Proof.
  induction pre as [| x pre IH]; simpl; [reflexivity |].
  rewrite IH. reflexivity.
Qed.

(** what one notification does to the last received bid and to the objects
    behind the opponent model *)
Lemma notifyChange_offer_effect (st : State) (data : Inform) (now : float)
    (r : result unit) (st' : State) :
  Rand.returns (notifyChange st data now) (r, st') ->
  match data with
  | ActionDone (Offer actor bid) =>
      if negb (PartyId_eqb actor (me st)) then
        last_received_bid st' = Some bid
        /\ heap st'
           = match opponent_model st with
             | None =>
                 heap st ++ [OpponentModel_update (OpponentModel_init (domain st)) bid]
             | Some ref =>
                 heap_update (heap st) ref (fun m => OpponentModel_update m bid)
             end
      else last_received_bid st' = last_received_bid st /\ heap st' = heap st
  | _ => last_received_bid st' = last_received_bid st /\ heap st' = heap st
  end.
Proof.
  intros H. destruct data as [s | action | | |].
  - apply RandFacts.returns_Ret_inv in H. inversion H; subst. simpl. auto.
  - rewrite notifyChange_ActionDone in H.
    apply RandFacts.returns_Ret_inv in H. inversion H; subst. clear H.
    destruct action as [actor bid | actor bid | actor]; simpl getActor;
      destruct (negb (PartyId_eqb actor (me st))); try (simpl; auto; fail).
    pose proof (opponent_action_effect
                  (set_other st (rsplit_underscore_head (str_option actor)))
                  (Offer actor bid)) as [Hl _].
    split; [exact Hl |].
    unfold opponent_action, update_opponent_model, new_opponent_model.
    simpl opponent_model.
    destruct (opponent_model st) as [ref |] eqn:E; simpl; rewrite ?E; simpl.
    + reflexivity.
    + rewrite (heap_update_at (heap st) [] (OpponentModel_init (domain st))).
      reflexivity.
  - apply my_turn_frame in H. intuition.
  - apply RandFacts.returns_Ret_inv in H. inversion H; subst. simpl. auto.
  - apply RandFacts.returns_Ret_inv in H. inversion H; subst. simpl. auto.
Qed.

Lemma last_cons_default {A : Type} (x : A) (xs : list A) (d d' : A) :
  last (x :: xs) d = last (x :: xs) d'.
Proof.
  revert x. induction xs as [| y ys IH]; intros x; [reflexivity |].
  change (last (y :: ys) d = last (y :: ys) d'). apply IH.
Qed.

Lemma fold_last_Some (l : list Bid) (d : option Bid) :
  fold_left (fun (_ : option Bid) (b : Bid) => Some b) l d = last (map Some l) d.
Proof.
  revert d. induction l as [| b l IH]; intros d; [reflexivity |].
  simpl fold_left. rewrite IH.
  destruct l as [| b' l']; [reflexivity |].
  change (last (map Some (b' :: l')) (Some b) = last (map Some (b' :: l')) d).
  apply last_cons_default.
Qed.

Lemma run_last_received_bid (st st' : State) (trace : list (Inform * float)) :
  run st trace st' ->
  last_received_bid st'
  = last (map Some (opponent_bids (me st) trace)) (last_received_bid st).
Proof.
  intros Hrun. rewrite <- fold_last_Some.
  induction Hrun as [st | st st1 st2 data now r trace Hstep Hrun IH];
    [reflexivity |].
  pose proof (notifyChange_opponent_model _ _ _ _ _ Hstep) as [Hme _].
  pose proof (notifyChange_offer_effect _ _ _ _ _ Hstep) as Heff.
  simpl opponent_bids. rewrite fold_left_app, <- Hme, IH. f_equal.
  destruct data as [s | [actor bid | actor bid | actor] | | |];
    try (destruct Heff as [Hl _]; exact Hl).
  destruct (negb (PartyId_eqb actor (me st))); destruct Heff as [Hl _]; exact Hl.
Qed.

(** X8.  The last received bid is the latest bid offered by another party, and
    is unset as long as there was none; the agent's own offers, acceptances
    and the other messages never touch it. *)
Theorem last_received_bid_is_latest_offer (trace : list (Inform * float))
    (st : State) :
  run init trace st ->
  last_received_bid st = last (map Some (opponent_bids None trace)) None.
Proof.
  intros Hrun. exact (run_last_received_bid init st trace Hrun).
Qed.

(** an agent that holds its opponent model: the object is updated with
    every bid offered by another party, in order *)
Lemma run_updates_opponent_model (st st' : State) (trace : list (Inform * float))
    (pre post : list OpponentModel) (m : OpponentModel) :
  run st trace st' ->
  opponent_model st = Some (length pre) ->
  heap st = pre ++ m :: post ->
  opponent_model st' = Some (length pre)
  /\ heap st'
     = pre ++ fold_left OpponentModel_update (opponent_bids (me st) trace) m :: post.
Proof.
  intros Hrun. revert m.
  induction Hrun as [st | st st1 st2 data now r trace Hstep Hrun IH];
    intros m Href Hheap.
  - simpl. auto.
  - pose proof (notifyChange_opponent_model _ _ _ _ _ Hstep) as [Hme Hmod].
    pose proof (notifyChange_offer_effect _ _ _ _ _ Hstep) as Heff.
    simpl opponent_bids. rewrite fold_left_app, <- Hme.
    rewrite Href in Hmod, Heff.
    assert (H1 : opponent_model st1 = Some (length pre)).
    { destruct (is_opponent_offer (me st) data); destruct Hmod as [Hm _];
        [exact Hm | congruence]. }
    destruct data as [s | [actor bid | actor bid | actor] | | |];
      try (destruct Heff as [_ Hh]; rewrite Hheap in Hh;
           exact (IH m H1 Hh)).
    destruct (negb (PartyId_eqb actor (me st))).
    + destruct Heff as [_ Hh]. rewrite Hheap, heap_update_at in Hh.
      exact (IH _ H1 Hh).
    + destruct Heff as [_ Hh]. rewrite Hheap in Hh. exact (IH m H1 Hh).
Qed.

(** an agent without opponent model: the first offer of another party makes
    it construct one for its domain of the moment, and from then on every
    such offer updates that object *)
Lemma run_feeds_opponent_model (st st' : State) (trace : list (Inform * float))
    (current : option Settings) :
  run st trace st' ->
  opponent_model st = None ->
  session_of current st ->
  match opponent_bids (me st) trace with
  | [] => opponent_model st' = None /\ heap st' = heap st
  | bids =>
      opponent_model st' = Some (length (heap st))
      /\ heap st'
         = heap st
           ++ [fold_left OpponentModel_update bids
                 (OpponentModel_init
                    (option_map (fun s => getDomain (getProfile s))
                       (settings_at_first_offer current (me st) trace)))]
  end.
Proof.
  intros Hrun. revert current.
  induction Hrun as [st | st st1 st2 data now r trace Hstep Hrun IH];
    intros current Hnone Hs.
  - simpl. auto.
  - pose proof (notifyChange_opponent_model _ _ _ _ _ Hstep) as [Hme Hmod].
    pose proof (notifyChange_offer_effect _ _ _ _ _ Hstep) as Heff.
    pose proof (notifyChange_session _ _ _ _ _ current Hstep Hs) as Hs1.
    simpl opponent_bids. simpl settings_at_first_offer. rewrite <- Hme.
    rewrite Hnone in Hmod, Heff.
    assert (Hplain :
              is_opponent_offer (me st) data = false ->
              last_received_bid st1 = last_received_bid st /\ heap st1 = heap st ->
              match opponent_bids (me st1) trace with
              | [] => opponent_model st2 = None /\ heap st2 = heap st
              | b :: bs =>
                  opponent_model st2 = Some (length (heap st))
                  /\ heap st2
                     = heap st
                       ++ [fold_left OpponentModel_update (b :: bs)
                             (OpponentModel_init
                                (option_map (fun s => getDomain (getProfile s))
                                   (settings_at_first_offer
                                      (latest_settings current [(data, now)])
                                      (me st1) trace)))]
              end).
    { intros Hno [_ Hh]. rewrite Hno in Hmod. destruct Hmod as [Hm1 _].
      specialize (IH _ Hm1 Hs1). rewrite Hh in IH. exact IH. }
    destruct data as [s | [actor bid | actor bid | actor] | | |];
      try (simpl app; apply Hplain; [reflexivity | exact Heff]).
    simpl is_opponent_offer in *.
    destruct (negb (PartyId_eqb actor (me st))) eqn:Eopp.
    + destruct Hmod as [Hm1 _]. destruct Heff as [_ Hh].
      destruct Hs as [_ [_ [_ [_ [_ [Hdom _]]]]]].
      destruct (run_updates_opponent_model st1 st2 trace (heap st) []
                  _ Hrun Hm1 Hh) as [Hm2 Hh2].
      simpl app. split; [exact Hm2 |].
      rewrite Hh2. simpl fold_left. rewrite Hdom. reflexivity.
    + simpl app. apply Hplain; [reflexivity | exact Heff].
Qed.

(** X9.  Every bid offered by another party is fed to the opponent model,
    once and in the order of arrival: the model is the one constructed at
    the first such offer, for the domain of the settings then in force, and
    updated with each of these bids. *)
Theorem opponent_model_is_fed_every_offer (trace : list (Inform * float))
    (st : State) :
  run init trace st ->
  match opponent_bids None trace with
  | [] => opponent_model st = None /\ heap st = []
  | bids =>
      opponent_model st = Some 0
      /\ heap st
         = [fold_left OpponentModel_update bids
              (OpponentModel_init
                 (option_map (fun s => getDomain (getProfile s))
                    (settings_at_first_offer None None trace)))]
  end.
Proof.
  intros Hrun.
  assert (Hs : session_of None init)
    by (unfold session_of; simpl; repeat split; reflexivity).
  exact (run_feeds_opponent_model init st trace None Hrun eq_refl Hs).
Qed.

Lemma sendable_more (seen more : list Bid) (a : Action) :
  sendable seen a -> sendable (seen ++ more) a.
Proof.
  destruct a as [actor bid | actor [b |] | actor]; simpl; auto.
  intros H. apply in_or_app. left. exact H.
Qed.

(** what one notification hands to the connection *)
Lemma notifyChange_sent (st : State) (data : Inform) (now : float)
    (r : result unit) (st' : State) :
  Rand.returns (notifyChange st data now) (r, st') ->
  match data with
  | YourTurn =>
      sent st' = sent st
      \/ (exists bid, sent st' = sent st ++ [Offer (me st) bid])
      \/ (exists last, last_received_bid st = Some last
                       /\ sent st' = sent st ++ [Accept (me st) (Some last)])
  | _ => sent st' = sent st
  end.
Proof.
  intros H. destruct data as [s | action | | |].
  - apply RandFacts.returns_Ret_inv in H. inversion H; subst. reflexivity.
  - rewrite notifyChange_ActionDone in H.
    apply RandFacts.returns_Ret_inv in H. inversion H; subst. clear H.
    destruct (negb _); [| reflexivity].
    pose proof (opponent_action_attrs
                  (set_other st (rsplit_underscore_head (str_option (getActor action))))
                  action) as Ha.
    cbv zeta in Ha. destruct Ha as [_ [_ [_ [_ [_ [_ [_ [_ [Hsent _]]]]]]]]].
    exact Hsent.
  - apply my_turn_cases in H.
    destruct H as [[e [_ ->]] | [[_ [bid ->]] | [_ [last [Hlast ->]]]]].
    + left. reflexivity.
    + right. left. exists bid. reflexivity.
    + right. right. exists last. split; [exact Hlast | reflexivity].
  - apply RandFacts.returns_Ret_inv in H. inversion H; subst. reflexivity.
  - apply RandFacts.returns_Ret_inv in H. inversion H; subst. reflexivity.
Qed.

Lemma run_sent (st st' : State) (trace : list (Inform * float)) (seen : list Bid) :
  run st trace st' ->
  (forall b, last_received_bid st = Some b -> In b seen) ->
  Forall (sendable seen) (sent st) ->
  length (sent st') <= length (sent st) + turns trace
  /\ Forall (sendable (seen ++ opponent_bids (me st) trace)) (sent st').
Proof.
  intros Hrun. revert seen.
  induction Hrun as [st | st st1 st2 data now r trace Hstep Hrun IH];
    intros seen Hlast Hsent.
  - simpl. rewrite app_nil_r. split; [lia | exact Hsent].
  - pose proof (notifyChange_opponent_model _ _ _ _ _ Hstep) as [Hme _].
    pose proof (notifyChange_offer_effect _ _ _ _ _ Hstep) as Heff.
    pose proof (notifyChange_sent _ _ _ _ _ Hstep) as Hs.
    simpl opponent_bids. rewrite <- Hme, app_assoc.
    set (new := match data with
                | ActionDone (Offer actor bid) =>
                    if negb (PartyId_eqb actor (me st)) then [bid] else []
                | _ => []
                end).
    assert (Hlast1 : forall b, last_received_bid st1 = Some b -> In b (seen ++ new)).
    { intros b Hb. subst new.
      destruct data as [s | [actor bid | actor bid0 | actor] | | |];
        try (destruct Heff as [Hl _]; rewrite Hl in Hb;
             apply in_or_app; left; apply Hlast; exact Hb).
      destruct (negb (PartyId_eqb actor (me st))); destruct Heff as [Hl _];
        rewrite Hl in Hb.
      - inversion Hb; subst. apply in_or_app. right. left. reflexivity.
      - apply in_or_app. left. apply Hlast. exact Hb. }
    assert (Hsent1 : Forall (sendable (seen ++ new)) (sent st1)
                     /\ length (sent st1)
                        <= length (sent st)
                           + match data with YourTurn => 1 | _ => 0 end).
    { assert (Hold : Forall (sendable (seen ++ new)) (sent st)).
      { eapply Forall_impl; [| exact Hsent]. intros a. apply sendable_more. }
      destruct data as [s | action | | |];
        try (rewrite Hs; split; [exact Hold | lia]).
      destruct Hs as [-> | [[bid ->] | [last [Hl ->]]]].
      - split; [exact Hold | lia].
      - split; [| rewrite length_app; simpl; lia].
        apply Forall_app. split; [exact Hold |]. constructor; [exact I | constructor].
      - split; [| rewrite length_app; simpl; lia].
        apply Forall_app. split; [exact Hold |].
        constructor; [| constructor]. simpl.
        apply in_or_app. left. apply Hlast. exact Hl. }
    destruct Hsent1 as [Hsent1 Hlen1].
    destruct (IH (seen ++ new) Hlast1 Hsent1) as [Hlen2 Hall2].
    split; [| exact Hall2].
    destruct data as [s | action | | |]; simpl turns; lia.
Qed.

(** X12.  The connection gets at most one action per turn and none otherwise;
    the agent only ever sends offers and acceptances, and a bid it accepts is
    one that another party has offered before. *)
Theorem sent_actions_follow_turns (trace : list (Inform * float)) (st : State) :
  run init trace st ->
  length (sent st) <= turns trace
  /\ Forall (sendable (opponent_bids None trace)) (sent st).
Proof.
  intros Hrun.
  destruct (run_sent init st trace [] Hrun) as [Hlen Hall].
  - intros b Hb. discriminate.
  - constructor.
  - split; [exact Hlen | exact Hall].
Qed.

(** ** The name of the other party *)

Lemma before_last_underscore_none (s : string) :
  no_underscore s -> before_last_underscore s = None.
Proof.
  induction s as [| c s IH]; intros Hno; simpl; [reflexivity |].
  rewrite IH.
  - destruct (Ascii.eqb_spec c "_"%char) as [-> | _]; [| reflexivity].
    exfalso. apply (Hno "_"%char); [left |]; reflexivity.
  - intros c' Hc'. apply Hno. right. exact Hc'.
Qed.

Lemma before_last_underscore_app (name pos : string) :
  no_underscore pos ->
  before_last_underscore (name ++ "_" ++ pos) = Some name.
Proof.
  intros Hno. induction name as [| c name IH]; simpl.
  - rewrite before_last_underscore_none by exact Hno. reflexivity.
  - simpl in IH. rewrite IH. reflexivity.
Qed.

(** X10.  [self.other] is the name of the acting party without its position:
    when a party called [name_pos] (no underscore in [pos]) acts, be it an
    offer, an acceptance or the end of the negotiation, the agent records
    [name]; a name without underscore is recorded whole. *)
Theorem other_is_opponent_name (st : State) (action : Action) (now : float)
    (actor : string) :
  getActor action = Some actor ->
  PartyId_eqb (Some actor) (me st) = false ->
  exists st',
    notifyChange st (ActionDone action) now = Rand.Ret (Ok tt, st')
    /\ (forall name pos, actor = (name ++ "_" ++ pos)%string ->
                         no_underscore pos -> other st' = Some name)
    /\ (no_underscore actor -> other st' = Some actor).
Proof.
  intros Hactor Hme. eexists. split; [apply notifyChange_ActionDone |].
  rewrite Hactor, Hme. simpl negb. cbv iota.
  pose proof (opponent_action_attrs
                (set_other st (rsplit_underscore_head (str_option (Some actor))))
                action) as Ha.
  cbv zeta in Ha. destruct Ha as [_ [_ [_ [_ [_ [_ [_ [Hother _]]]]]]]].
  rewrite Hother. unfold set_other. cbn [other str_option].
  unfold rsplit_underscore_head. split.
  - intros name pos -> Hno. rewrite before_last_underscore_app by exact Hno.
    reflexivity.
  - intros Hno. rewrite before_last_underscore_none by exact Hno. reflexivity.
Qed.

(** ** What a turn decides *)

(** X5.  With an offer on the table and a non-empty bid space of at most
    [sys.maxsize] bids, a turn always answers: it has a run, and every run
    ends without exception having sent one action, which is the offer of a
    bid of the bid space or the acceptance of the last received bid. *)
Theorem my_turn_answers_with_valid_action (st : State) (pf : Profile)
    (pg : Progress) (last : Bid) (now : float) :
  profile st = Some pf -> progress st = Some pg ->
  last_received_bid st = Some last ->
  AllBidsList (getDomain pf) <> [] ->
  (Z.of_nat (length (AllBidsList (getDomain pf))) <= Rand.sys_maxsize)%Z ->
  (exists r st', Rand.returns (my_turn st now) (r, st'))
  /\ (forall r st',
        Rand.returns (my_turn st now) (r, st') ->
        r = Ok tt
        /\ ((exists bid, In bid (AllBidsList (getDomain pf))
                         /\ st' = send_action st (Offer (me st) bid))
            \/ st' = send_action st (Accept (me st) (Some last)))).
Proof.
  intros Hpf Hpg Hlast Hne Hfit.
  destruct (find_bid_member st pf last Hpf Hlast Hne Hfit) as [[rb Hrb] Hmem].
  split.
  - destruct (Hmem rb Hrb) as [bid [-> _]].
    pose proof (accept_unfold st pf pg bid last T_default now Hpf Hpg) as Hacc.
    unfold my_turn.
    destruct (Dec.gtb (utility pf last) (utility pf bid)
              || (T_default <? get pg (now * 1000))%float)%bool eqn:Ed;
      do 2 eexists;
      (eapply RandFacts.returns_bind; [exact Hrb |]);
      rewrite Hlast, Hacc; apply Rand.returns_Ret.
  - intros r st' Hrun.
    destruct (my_turn_sends_one_action st pf pg last now r st'
                Hpf Hpg Hlast Hne Hfit Hrun)
      as [Hr [bid [action [Hfind [Hst [_ [[_ Ha] | [_ Ha]]]]]]]];
      split; try exact Hr; subst action.
    + right. exact Hst.
    + left. exists bid. split; [| exact Hst].
      destruct (Hmem (Ok bid) Hfind) as [b [Hb Hin]]. inversion Hb; subst. exact Hin.
Qed.

(** X6.  Past the deadline threshold (progress strictly above 0.95), on a
    non-empty bid space of at most [sys.maxsize] bids, every run of a turn
    accepts the last received bid, whatever bid the search found and whatever
    the utilities. *)
Theorem my_turn_accepts_past_threshold (st : State) (pf : Profile)
    (pg : Progress) (last : Bid) (now : float) :
  profile st = Some pf -> progress st = Some pg ->
  last_received_bid st = Some last ->
  AllBidsList (getDomain pf) <> [] ->
  (Z.of_nat (length (AllBidsList (getDomain pf))) <= Rand.sys_maxsize)%Z ->
  (T_default <? get pg (now * 1000))%float = true ->
  forall r st',
    Rand.returns (my_turn st now) (r, st') ->
    r = Ok tt /\ st' = send_action st (Accept (me st) (Some last)).
Proof.
  intros Hpf Hpg Hlast Hne Hfit Hlate r st' Hrun.
  destruct (my_turn_sends_one_action st pf pg last now r st'
              Hpf Hpg Hlast Hne Hfit Hrun)
    as [Hr [bid [action [_ [Hst [_ [[_ Ha] | [Hacc _]]]]]]]].
  - subst action. split; assumption.
  - rewrite (accept_unfold st pf pg bid last T_default now Hpf Hpg) in Hacc.
    rewrite Hlate, orb_true_r in Hacc. discriminate.
Qed.

(** X7.  The agent never counter-offers a bid that is worth less to it than
    the offer on the table: when a turn sends an offer, the offered bid is a
    bid of the bid space whose own utility is at least that of the last
    received bid, and the progress is not above the threshold. *)
Theorem my_turn_never_offers_worse (st : State) (pf : Profile)
    (pg : Progress) (last : Bid) (now : float) :
  profile st = Some pf -> progress st = Some pg ->
  last_received_bid st = Some last ->
  AllBidsList (getDomain pf) <> [] ->
  forall r st' actor bid,
    Rand.returns (my_turn st now) (r, st') ->
    st' = send_action st (Offer actor bid) ->
    In bid (AllBidsList (getDomain pf))
    /\ (Dec.value (utility pf last) <= Dec.value (utility pf bid))%Q
    /\ (T_default <? get pg (now * 1000))%float = false.
Proof.
  intros Hpf Hpg Hlast Hne r st' actor bid Hrun Hst.
  destruct (Z_le_gt_dec (Z.of_nat (length (AllBidsList (getDomain pf))))
              Rand.sys_maxsize) as [Hfit | Hbig].
  2: { apply Z.gt_lt in Hbig.
       destruct (my_turn_overflow st pf last now r st' Hpf Hlast Hbig Hrun)
         as [_ Hsame].
       rewrite Hsame in Hst. apply (f_equal sent) in Hst. simpl in Hst.
       apply (f_equal (@length Action)) in Hst.
       rewrite length_app in Hst. simpl in Hst. lia. }
  destruct (find_bid_member st pf last Hpf Hlast Hne Hfit) as [_ Hmem].
  destruct (my_turn_sends_one_action st pf pg last now r st'
              Hpf Hpg Hlast Hne Hfit Hrun)
    as [_ [bid0 [action [Hfind [Hst0 [_ Hcase]]]]]].
  assert (Haction : action = Offer actor bid).
  { rewrite Hst in Hst0. apply (f_equal sent) in Hst0. simpl in Hst0.
    apply app_inv_head in Hst0. inversion Hst0. reflexivity. }
  destruct Hcase as [[_ Ha] | [Hacc Ha]]; rewrite Ha in Haction;
    [discriminate |].
  inversion Haction; subst.
  rewrite (accept_unfold st pf pg bid last T_default now Hpf Hpg) in Hacc.
  injection Hacc as Hor. apply orb_false_iff in Hor. destruct Hor as [Hgt Hlt].
  split; [| split; [exact (proj1 (DecFacts.gtb_false_value _ _) Hgt) | exact Hlt]].
  destruct (Hmem (Ok bid) Hfind) as [b [Hb Hin]]. inversion Hb; subst. exact Hin.
Qed.

(** ** Samples and probabilities *)

Module ProbFacts.

Lemma arrangements_NoDup (pool : list nat) (k : nat) (l : list nat) :
  In l (Rand.arrangements pool k) -> NoDup l.
Proof.
  revert pool l. induction k as [| k IH]; intros pool l Hin; simpl in Hin.
  - destruct Hin as [<- | []]. constructor.
  - apply in_flat_map in Hin. destruct Hin as [x [Hx Hl]].
    apply in_map_iff in Hl. destruct Hl as [l' [<- Hl']].
    constructor; [| eapply IH; eauto].
    intros Hxl'. apply arrangements_In in Hl'. destruct Hl' as [_ Hall].
    rewrite Forall_forall in Hall. apply Hall in Hxl'.
    apply in_remove in Hxl'. destruct Hxl' as [_ Hneq]. apply Hneq. reflexivity.
Qed.

Lemma arrangements_complete (pool : list nat) (l : list nat) :
  NoDup l -> incl l pool -> In l (Rand.arrangements pool (length l)).
Proof.
  revert pool. induction l as [| x l IH]; intros pool Hnd Hincl; simpl.
  - left. reflexivity.
  - inversion Hnd as [| ? ? Hx Hnd']; subst.
    apply in_flat_map. exists x. split; [apply Hincl; left; reflexivity |].
    apply in_map. apply IH; [exact Hnd' |].
    intros y Hy. apply in_in_remove.
    + intros ->. contradiction.
    + apply Hincl. right. exact Hy.
Qed.

(** the lists that [prob] averages over are the draws that [returns]
    allows *)
Lemma arrangements_is_sample (n k : nat) (l : list nat) :
  In l (Rand.arrangements (seq 0 n) k) <-> Rand.is_sample n k l.
Proof.
  split.
  - intros Hin. pose proof (arrangements_NoDup _ _ _ Hin) as Hnd.
    apply arrangements_In in Hin. destruct Hin as [Hlen Hall].
    repeat split; [exact Hnd | exact Hlen |].
    eapply Forall_impl; [| exact Hall]. intros i Hi. apply in_seq in Hi. lia.
  - intros [Hnd [Hlen Hall]]. rewrite <- Hlen.
    apply arrangements_complete; [exact Hnd |].
    intros i Hi. rewrite Forall_forall in Hall. apply in_seq.
    specialize (Hall i Hi). lia.
Qed.

Lemma Qsum_const (l : list Q) (c : Q) :
  (forall x, In x l -> (x == c)%Q) ->
  (Rand.Qsum l == inject_Z (Z.of_nat (length l)) * c)%Q.
Proof.
  induction l as [| x l IH]; intros Hall.
  - simpl. ring.
  - assert (Hx : (x == c)%Q) by (apply Hall; left; reflexivity).
    assert (Hl : (Rand.Qsum l == inject_Z (Z.of_nat (length l)) * c)%Q)
      by (apply IH; intros y Hy; apply Hall; right; exact Hy).
    change (Rand.Qsum (x :: l)) with (x + Rand.Qsum l)%Q.
    change (length (x :: l)) with (S (length l)).
    rewrite Hx, Hl.
    rewrite Nat2Z.inj_succ. unfold Z.succ. rewrite inject_Z_plus. ring.
Qed.

Lemma average_const (l : list Q) (c : Q) :
  l <> [] -> (forall x, In x l -> (x == c)%Q) -> (Rand.average l == c)%Q.
Proof.
  intros Hne Hall. unfold Rand.average. rewrite (Qsum_const l c Hall).
  field. destruct l as [| x l]; [congruence |].
  change 0%Q with (inject_Z 0). rewrite inject_Z_injective. simpl. lia.
Qed.

(** a computation all of whose draws can be served, and all of whose runs
    end in [P], ends in [P] with probability one *)
Lemma prob_one {A : Type} (m : Rand.t A) (P : A -> bool) :
  proper m ->
  (forall a, Rand.returns m a -> P a = true) ->
  (Rand.prob m P == 1)%Q.
Proof.
  induction 1 as [a | n k cont Hk Hproper IH | n cont Hn Hproper IH];
    intros HP; simpl Rand.prob.
  - rewrite (HP a (Rand.returns_Ret a)). reflexivity.
  - apply average_const.
    + intros Hnil. apply map_eq_nil in Hnil.
      pose proof (proj2 (arrangements_is_sample n k (seq 0 k))
                    (RandFacts.is_sample_seq n k Hk)) as Hin.
      rewrite Hnil in Hin. contradiction.
    + intros x Hx. apply in_map_iff in Hx. destruct Hx as [l [<- Hl]].
      apply arrangements_is_sample in Hl.
      apply (IH l Hl). intros a Ha. apply HP.
      eapply Rand.returns_Sample; eauto.
  - apply average_const.
    + intros Hnil. apply map_eq_nil in Hnil.
      destruct n; [lia | discriminate].
    + intros x Hx. apply in_map_iff in Hx. destruct Hx as [i [<- Hi]].
      apply in_seq in Hi.
      apply (IH i ltac:(lia)). intros a Ha. apply HP.
      eapply Rand.returns_Choice with (i := i); [lia | exact Ha].
Qed.

Lemma proper_choice {A : Type} (xs : list A) : xs <> [] -> proper (Rand.choice xs).
Proof.
  intros Hne. destruct xs as [| x xs']; [congruence |].
  unfold Rand.choice. apply proper_Choice; [simpl; lia |].
  intros i _. constructor.
Qed.

End ProbFacts.

Lemma Bid_eqb_eq (a b : Bid) : Bid_eqb a b = true <-> a = b.
Proof.
  revert b. induction a as [| [i v] a IH]; intros [| [j w] b]; simpl;
    try (split; [discriminate | discriminate]); [split; reflexivity |].
  rewrite !andb_true_iff, !String.eqb_eq, IH.
  split.
  - intros [[-> ->] ->]. reflexivity.
  - intros H. inversion H. auto.
Qed.

Lemma is_bid_of_In (bids : list Bid) (b : Bid) :
  In b bids -> is_bid_of bids (Ok b) = true.
Proof.
  intros Hin. simpl. apply existsb_exists. exists b.
  split; [exact Hin | apply Bid_eqb_eq; reflexivity].
Qed.

Lemma find_bid_proper (st : State) (pf : Profile) (last : Bid) :
  profile st = Some pf -> last_received_bid st = Some last ->
  AllBidsList (getDomain pf) <> [] ->
  (Z.of_nat (length (AllBidsList (getDomain pf))) <= Rand.sys_maxsize)%Z ->
  proper (find_bid st).
Proof.
  intros Hpf Hlast Hne Hfit. rewrite (find_bid_unfold st pf last Hpf Hlast Hfit).
  apply proper_Sample; [apply Nat.le_min_l |].
  intros l [_ [_ Hall]].
  rewrite (similar_loop_filter pf _ _ l [] Hall). simpl.
  destruct (filter _ _) as [| x xs].
  - apply ProbFacts.proper_choice. exact Hne.
  - apply ProbFacts.proper_choice. discriminate.
Qed.

(** X1.  With an offer on the table and a non-empty bid space of at most
    [sys.maxsize] bids the search never fails: it has a run, every run
    returns a bid of the bid space, and the probability of returning one
    is 1. *)
Theorem find_bid_returns_bid_of_domain (st : State) (pf : Profile) (last : Bid) :
  profile st = Some pf -> last_received_bid st = Some last ->
  AllBidsList (getDomain pf) <> [] ->
  (Z.of_nat (length (AllBidsList (getDomain pf))) <= Rand.sys_maxsize)%Z ->
  (exists b, Rand.returns (find_bid st) (Ok b))
  /\ (forall r, Rand.returns (find_bid st) r ->
        exists b, r = Ok b /\ In b (AllBidsList (getDomain pf)))
  /\ (Rand.prob (find_bid st) (is_bid_of (AllBidsList (getDomain pf))) == 1)%Q.
Proof.
  intros Hpf Hlast Hne Hfit.
  destruct (find_bid_member st pf last Hpf Hlast Hne Hfit) as [[r Hr] Hmem].
  split; [| split; [exact Hmem |]].
  - destruct (Hmem r Hr) as [b [-> _]]. exists b. exact Hr.
  - apply ProbFacts.prob_one.
    + exact (find_bid_proper st pf last Hpf Hlast Hne Hfit).
    + intros a Ha. destruct (Hmem a Ha) as [b [-> Hin]].
      apply is_bid_of_In. exact Hin.
Qed.

(** ** The search on a bid space that the sample covers *)

(** a bid space that the sample covers is one [random.sample] can measure *)
Lemma small_fits (n : nat) :
  n <= max_bids_to_check -> (Z.of_nat n <= Rand.sys_maxsize)%Z.
Proof.
  unfold max_bids_to_check, Rand.sys_maxsize. intros Hn.
  apply Z.le_trans with (m := 500%Z); [lia | discriminate].
Qed.

(** a sample of all the indices contains each of them *)
Lemma full_sample_covers (n : nat) (l : list nat) (i : nat) :
  Rand.is_sample n n l -> i < n -> In i l.
Proof.
  intros [Hnd [Hlen Hall]] Hi.
  assert (Hincl : incl (seq 0 n) l).
  { apply NoDup_length_incl; [exact Hnd | rewrite length_seq; lia |].
    intros j Hj. rewrite Forall_forall in Hall. apply in_seq.
    specialize (Hall j Hj). lia. }
  apply Hincl. apply in_seq. lia.
Qed.

Lemma bids_at_full (all_bids : list Bid) (l : list nat) (b : Bid) :
  Rand.is_sample (length all_bids) (length all_bids) l ->
  (In b (bids_at all_bids l) <-> In b all_bids).
Proof.
  intros Hs. split; [apply bids_at_In |].
  intros Hin. apply In_nth_error in Hin. destruct Hin as [i Hi].
  unfold bids_at. apply in_flat_map. exists i. split.
  - apply (full_sample_covers _ l i Hs). apply nth_error_Some. congruence.
  - rewrite Hi. left. reflexivity.
Qed.

(** X2.  On a bid space of at most 500 bids the sample is the whole space,
    and the search returns exactly: any bid that passes the concession test,
    when some bid of the space passes it; any bid of the space, when none
    does. *)
Theorem find_bid_small_domain (st : State) (pf : Profile) (last : Bid)
    (r : result Bid) :
  profile st = Some pf -> last_received_bid st = Some last ->
  AllBidsList (getDomain pf) <> [] ->
  length (AllBidsList (getDomain pf)) <= max_bids_to_check ->
  (Rand.returns (find_bid st) r <->
   exists b,
     r = Ok b
     /\ In b (AllBidsList (getDomain pf))
     /\ ((exists b', In b' (AllBidsList (getDomain pf))
                     /\ passes_concession pf (utility pf last) b' = true) ->
         passes_concession pf (utility pf last) b = true)).
Proof.
  intros Hpf Hlast Hne Hsmall.
  rewrite (find_bid_returns st pf last r Hpf Hlast Hne (small_fits _ Hsmall)).
  rewrite Nat.min_l by exact Hsmall.
  set (all_bids := AllBidsList (getDomain pf)) in *.
  set (pass := passes_concession pf (utility pf last)).
  split.
  - intros [l [b [Hs [-> Hin]]]]. exists b. split; [reflexivity |].
    cbv zeta in Hin.
    destruct (filter pass (bids_at all_bids l)) as [| x xs] eqn:Ef.
    + split; [exact Hin |]. intros [b' [Hb' Hp']].
      assert (Hf : In b' (filter pass (bids_at all_bids l))).
      { apply filter_In. split; [apply (bids_at_full all_bids l b' Hs); exact Hb' | exact Hp']. }
      rewrite Ef in Hf. contradiction.
    + assert (Hf : In b (filter pass (bids_at all_bids l)))
        by (rewrite Ef; exact Hin).
      apply filter_In in Hf. destruct Hf as [Hb Hp].
      split; [eapply bids_at_In; eauto |]. intros _. exact Hp.
  - intros [b [-> [Hin Himp]]].
    assert (Hs : Rand.is_sample (length all_bids) (length all_bids)
                   (seq 0 (length all_bids)))
      by (apply RandFacts.is_sample_seq; lia).
    exists (seq 0 (length all_bids)), b.
    split; [exact Hs |]. split; [reflexivity |]. cbv zeta.
    destruct (filter pass (bids_at all_bids (seq 0 (length all_bids))))
      as [| x xs] eqn:Ef; [exact Hin |].
    rewrite <- Ef. apply filter_In.
    split; [apply (bids_at_full all_bids _ b Hs); exact Hin |].
    apply Himp. exists x.
    assert (Hx : In x (filter pass (bids_at all_bids (seq 0 (length all_bids)))))
      by (rewrite Ef; left; reflexivity).
    apply filter_In in Hx. destruct Hx as [Hx Hp].
    split; [eapply bids_at_In; eauto | exact Hp].
Qed.

(** ** The search below the concession margin *)

(** [Decimal(0.9)] lies above 0.9 *)
Lemma Decimal_0_9_above : (9 # 10 < Dec.value Decimal_0_9)%Q.
Proof. vm_compute. reflexivity. Qed.

(** as long as the offer on the table is worth at most 0.9 to the agent, no
    bid with a utility of 0 or more fails the concession test *)
Lemma all_pass_below_margin (pf : Profile) (prev : Dec.t) (b : Bid) :
  (Dec.value prev <= 9 # 10)%Q ->
  (0 <= Dec.value (utility pf b))%Q ->
  passes_concession pf prev b = true.
Proof.
  intros Hprev Hb. unfold passes_concession. apply DecFacts.gtb_value.
  eapply Qlt_le_trans; [| exact Hb].
  apply DecRounding.sub_value_neg.
  eapply Qle_lt_trans; [exact Hprev | exact Decimal_0_9_above].
Qed.

Lemma find_bid_unfiltered_when_all_pass (st : State) (pf : Profile) (last : Bid) :
  profile st = Some pf -> last_received_bid st = Some last ->
  (forall b, In b (AllBidsList (getDomain pf)) ->
             passes_concession pf (utility pf last) b = true) ->
  (forall r, Rand.returns (find_bid st) r
             <-> Rand.returns (choose_from_sample pf) r)
  /\ (forall P, (Rand.prob (find_bid st) P
                 == Rand.prob (choose_from_sample pf) P)%Q).
Proof.
  intros Hpf Hlast Hpass.
  destruct (Z_le_gt_dec (Z.of_nat (length (AllBidsList (getDomain pf))))
              Rand.sys_maxsize) as [Hfit | Hbig].
  2: { apply Z.gt_lt in Hbig.
       rewrite (find_bid_overflow st pf last Hpf Hlast Hbig),
         (choose_from_sample_overflow pf Hbig).
       split; [intros r | intros P]; reflexivity. }
  rewrite (find_bid_unfold st pf last Hpf Hlast Hfit),
    (choose_from_sample_unfold pf Hfit).
  split.
  - intros r. split; apply returns_Sample_ext; intros l [_ [Hlen Hall]];
      [| symmetry]; apply find_bid_cont_unfiltered; auto.
  - intros P. erewrite prob_Sample_ext; [reflexivity |].
    intros l Hlen Hall. apply find_bid_cont_unfiltered; auto.
Qed.

(** X3.  The concession filter only bites when the offer on the table is
    worth more than 0.9 to the agent.  For any last received bid worth at
    most 0.9, and utilities that are not negative, the search is the
    unfiltered choice among the sampled bids: same possible results, same
    probabilities. *)
Theorem find_bid_unfiltered_below_margin (st : State) (pf : Profile) (last : Bid) :
  profile st = Some pf -> last_received_bid st = Some last ->
  (Dec.value (utility pf last) <= 9 # 10)%Q ->
  (forall b, In b (AllBidsList (getDomain pf)) ->
             (0 <= Dec.value (utility pf b))%Q) ->
  (forall r, Rand.returns (find_bid st) r
             <-> Rand.returns (choose_from_sample pf) r)
  /\ (forall P, (Rand.prob (find_bid st) P
                 == Rand.prob (choose_from_sample pf) P)%Q).
Proof.
  intros Hpf Hlast Hprev Hpos.
  apply (find_bid_unfiltered_when_all_pass st pf last Hpf Hlast).
  intros b Hb. apply all_pass_below_margin; [exact Hprev | apply Hpos; exact Hb].
Qed.

(** ** The distribution of the bid returned *)

Module UniformFacts.

Lemma map_nth_error_seq {A B : Type} (g : option A -> B) (xs : list A) :
  map (fun i => g (nth_error xs i)) (seq 0 (length xs))
  = map (fun x => g (Some x)) xs.
Proof.
  induction xs as [| x xs IH]; [reflexivity |].
  simpl. f_equal. rewrite <- seq_shift, map_map. exact IH.
Qed.

(** [random.choice] gives every position the same weight *)
Lemma prob_choice {A : Type} (xs : list A) (P : result A -> bool) :
  xs <> [] ->
  Rand.prob (Rand.choice xs) P
  = Rand.average (map (fun x => if P (Ok x) then 1%Q else 0%Q) xs).
Proof.
  intros Hne. destruct xs as [| x0 xs0]; [congruence |].
  unfold Rand.choice. set (xs := x0 :: xs0).
  cbn [Rand.prob]. f_equal.
  exact (map_nth_error_seq
           (fun o => if P match o with
                          | Some a => Ok a
                          | None => Raise IndexError
                          end then 1%Q else 0%Q) xs).
Qed.

Lemma Qsum_indicator {A : Type} (p : A -> bool) (xs : list A) :
  (Rand.Qsum (map (fun x => if p x then 1 else 0) xs)
   == inject_Z (Z.of_nat (length (filter p xs))))%Q.
Proof.
  induction xs as [| x xs IH]; [reflexivity |].
  change (Rand.Qsum (map (fun x => if p x then 1 else 0) (x :: xs)))%Q
    with ((if p x then 1 else 0) + Rand.Qsum (map (fun x => if p x then 1 else 0) xs))%Q.
  rewrite IH. simpl filter. destruct (p x).
  - change (length (x :: filter p xs)) with (S (length (filter p xs))).
    rewrite Nat2Z.inj_succ. unfold Z.succ. rewrite inject_Z_plus. ring.
  - ring.
Qed.

Lemma filter_length_perm {A : Type} (p : A -> bool) (xs ys : list A) :
  Permutation xs ys -> length (filter p xs) = length (filter p ys).
Proof.
  induction 1 as [| x xs ys _ IH | x y xs | xs ys zs _ IH1 _ IH2]; simpl.
  - reflexivity.
  - destruct (p x); simpl; congruence.
  - destruct (p x), (p y); reflexivity.
  - congruence.
Qed.

Lemma filter_bid_absent (b : Bid) (l : list Bid) :
  ~ In b l -> filter (fun x => Bid_eqb x b) l = [].
Proof.
  induction l as [| x l IH]; intros Hno; [reflexivity |].
  simpl. destruct (Bid_eqb x b) eqn:E.
  - apply Bid_eqb_eq in E. subst. exfalso. apply Hno. left. reflexivity.
  - apply IH. intros Hin. apply Hno. right. exact Hin.
Qed.

Lemma filter_bid_once (b : Bid) (l : list Bid) :
  NoDup l -> In b l -> length (filter (fun x => Bid_eqb x b) l) = 1.
Proof.
  induction 1 as [| x l Hx Hnd IH]; intros Hin; [contradiction |].
  simpl. destruct (Bid_eqb x b) eqn:E.
  - apply Bid_eqb_eq in E. subst.
    rewrite filter_bid_absent by exact Hx. reflexivity.
  - destruct Hin as [-> | Hin].
    + assert (Hrefl : Bid_eqb b b = true) by (apply Bid_eqb_eq; reflexivity).
      congruence.
    + exact (IH Hin).
Qed.

Lemma bids_at_map (all_bids : list Bid) (l : list nat) :
  Forall (fun i => i < length all_bids) l ->
  bids_at all_bids l = map (fun i => nth i all_bids []) l.
Proof.
  induction 1 as [| i l Hi Hall IH]; [reflexivity |].
  unfold bids_at in *. simpl. rewrite IH.
  destruct (nth_error all_bids i) as [b |] eqn:E.
  - rewrite (nth_error_nth _ _ _ E). reflexivity.
  - apply nth_error_None in E. lia.
Qed.

Lemma map_nth_seq (all_bids : list Bid) :
  map (fun i => nth i all_bids []) (seq 0 (length all_bids)) = all_bids.
Proof.
  induction all_bids as [| b l IH]; [reflexivity |].
  simpl. f_equal. rewrite <- seq_shift, map_map. exact IH.
Qed.

(** the bids at a sample of all the indices are the bid space, reordered *)
Lemma bids_at_perm (all_bids : list Bid) (l : list nat) :
  Rand.is_sample (length all_bids) (length all_bids) l ->
  Permutation (bids_at all_bids l) all_bids.
Proof.
  intros Hs. pose proof Hs as [Hnd [Hlen Hall]].
  rewrite (bids_at_map all_bids l Hall).
  apply Permutation_trans
    with (map (fun i => nth i all_bids []) (seq 0 (length all_bids)));
    [| rewrite map_nth_seq; apply Permutation_refl].
  apply Permutation_map. apply NoDup_Permutation; [exact Hnd | apply seq_NoDup |].
  intros i. split.
  - intros Hi. rewrite Forall_forall in Hall. apply in_seq.
    specialize (Hall i Hi). lia.
  - intros Hi. apply in_seq in Hi. apply (full_sample_covers _ l i Hs). lia.
Qed.

End UniformFacts.

(** X4.  On a bid space of at most 500 distinct bids, and with an offer on
    the table worth at most 0.9 to the agent (utilities being non-negative),
    the search is a uniform draw from the whole bid space: each of its [n]
    bids is returned with probability [1 / n]. *)
Theorem find_bid_uniform_on_small_domain (st : State) (pf : Profile)
    (last b : Bid) :
  profile st = Some pf -> last_received_bid st = Some last ->
  (Dec.value (utility pf last) <= 9 # 10)%Q ->
  (forall x, In x (AllBidsList (getDomain pf)) ->
             (0 <= Dec.value (utility pf x))%Q) ->
  length (AllBidsList (getDomain pf)) <= max_bids_to_check ->
  NoDup (AllBidsList (getDomain pf)) ->
  In b (AllBidsList (getDomain pf)) ->
  (Rand.prob (find_bid st) (is_bid b)
   == 1 / inject_Z (Z.of_nat (length (AllBidsList (getDomain pf)))))%Q.
Proof.
  intros Hpf Hlast Hprev Hpos Hsmall Hnd Hin.
  assert (Hpass : forall x, In x (AllBidsList (getDomain pf)) ->
                            passes_concession pf (utility pf last) x = true)
    by (intros x Hx; apply all_pass_below_margin; [exact Hprev | apply Hpos; exact Hx]).
  destruct (find_bid_unfiltered_when_all_pass st pf last Hpf Hlast Hpass)
    as [_ Hprob].
  rewrite Hprob, (choose_from_sample_unfold pf (small_fits _ Hsmall)).
  clear Hprob.
  rewrite Nat.min_l by exact Hsmall.
  set (all_bids := AllBidsList (getDomain pf)) in *.
  set (n := length all_bids) in *.
  assert (Hn : 0 < n) by (subst n; destruct all_bids; [contradiction | simpl; lia]).
  cbn [Rand.prob]. apply ProbFacts.average_const.
  - intros Hnil. apply map_eq_nil in Hnil.
    pose proof (proj2 (ProbFacts.arrangements_is_sample n n (seq 0 n))
                  (RandFacts.is_sample_seq n n (le_n n))) as Hseq.
    rewrite Hnil in Hseq. contradiction.
  - intros q Hq. apply in_map_iff in Hq. destruct Hq as [l [<- Hl]].
    apply ProbFacts.arrangements_is_sample in Hl.
    pose proof (UniformFacts.bids_at_perm all_bids l Hl) as Hperm.
    assert (Hlen : length (bids_at all_bids l) = n)
      by (apply Permutation_length; exact Hperm).
    rewrite UniformFacts.prob_choice
      by (intros Hnil; rewrite Hnil in Hlen; simpl in Hlen; lia).
    unfold Rand.average. rewrite length_map, Hlen.
    rewrite (UniformFacts.Qsum_indicator (fun x => is_bid b (Ok x))).
    change (fun x => is_bid b (Ok x)) with (fun x => Bid_eqb x b).
    rewrite (UniformFacts.filter_length_perm _ _ _ Hperm).
    rewrite (UniformFacts.filter_bid_once b all_bids Hnd Hin).
    reflexivity.
Qed.

Lemma find_bid_uniform_on_small_domain_witness :
  (Rand.prob (find_bid Example.half) (is_bid Example.bid2) == 1 / inject_Z 2)%Q.
Proof.
  apply (find_bid_uniform_on_small_domain Example.half Example.prof_half
           Example.bid1 Example.bid2).
  - reflexivity.
  - reflexivity.
  - vm_compute. discriminate.
  - intros x [<- | [<- | []]]; vm_compute; discriminate.
  - vm_compute. repeat constructor.
  - repeat constructor; simpl; intuition discriminate.
  - right. left. reflexivity.
Defined.

(** ** A turn within a session *)

(** X13.  Within a session, a turn of an agent that has its settings (with a
    non-empty bid space of at most [sys.maxsize] bids) answers with exactly
    one action as soon as another party has made an offer; and as long as
    none has, with a profile that raises on [None], every turn raises and
    sends nothing. *)
Theorem turn_in_session (trace : list (Inform * float)) (st : State)
    (s : Settings) (now : float) (r : result unit) (st' : State) :
  run init trace st ->
  latest_settings None trace = Some s ->
  Rand.returns (notifyChange st YourTurn now) (r, st') ->
  (opponent_bids None trace <> [] ->
   AllBidsList (getDomain (getProfile s)) <> [] ->
   (Z.of_nat (length (AllBidsList (getDomain (getProfile s))))
    <= Rand.sys_maxsize)%Z ->
   r = Ok tt /\ exists action, sent st' = sent st ++ [action])
  /\ (opponent_bids None trace = [] ->
      forall e, utility_None (getProfile s) = Raise e ->
      r = Raise e /\ st' = st).
Proof.
  intros Hrun Hsett Hturn.
  pose proof (run_session init st trace None Hrun) as Hs.
  rewrite Hsett in Hs.
  destruct Hs as [_ [_ [Hpg [_ [Hpf _]]]]];
    [unfold session_of; simpl; repeat split; reflexivity |].
  simpl in Hpg, Hpf.
  pose proof (run_last_received_bid init st trace Hrun) as Hlast.
  simpl in Hlast, Hturn.
  split.
  - intros Hbids Hne Hfit.
    destruct (opponent_bids None trace) as [| b bs] eqn:Eb; [congruence |].
    assert (Hl : exists last, last_received_bid st = Some last).
    { rewrite Hlast.
      assert (Hmap : map Some (b :: bs) <> []) by discriminate.
      destruct (exists_last Hmap) as [pre [x Hx]]. rewrite Hx, last_last.
      assert (Hin : In x (map Some (b :: bs)))
        by (rewrite Hx; apply in_or_app; right; left; reflexivity).
      apply in_map_iff in Hin. destruct Hin as [y [<- _]]. exists y. reflexivity. }
    destruct Hl as [last Hl].
    destruct (my_turn_sends_one_action st (getProfile s) (getProgress s) last
                now r st' Hpf Hpg Hl Hne Hfit Hturn)
      as [Hr [bid [action [_ [_ [Hsent _]]]]]].
    split; [exact Hr |]. exists action. exact Hsent.
  - intros Hnone e He. rewrite Hnone in Hlast. simpl in Hlast.
    unfold my_turn, find_bid in Hturn.
    rewrite Hpf, Hlast in Hturn. simpl in Hturn. rewrite He in Hturn.
    simpl in Hturn. apply RandFacts.returns_Ret_inv in Hturn.
    inversion Hturn. split; reflexivity.
Qed.

(** ** Failures of the scoring function *)

(** X14.  [score_bid] fails exactly on its division and its power: with the
    settings read and the opponent model, if any, in place, it raises
    [ZeroDivisionError] when [eps] is zero (of either sign) without looking
    at the power, raises what the power raises when that fails, and returns
    a score in every other case. *)
Theorem score_bid_errors
    (float_pow : float -> float -> result float)
    (float_of_Decimal : Dec.t -> float)
    (get_predicted_utility : OpponentModel -> Bid -> float)
    (st : State) (pf : Profile) (pg : Progress) (bid : Bid)
    (alpha eps now : float) :
  profile st = Some pf -> progress st = Some pg ->
  (forall ref, opponent_model st = Some ref -> ref < length (heap st)) ->
  let score :=
    score_bid float_pow float_of_Decimal get_predicted_utility st bid alpha eps now in
  ((eps =? 0)%float = true -> score = Raise ZeroDivisionError)
  /\ (forall e, (eps =? 0)%float = false ->
                float_pow (get pg (now * 1000)%float) (1 / eps)%float = Raise e ->
                score = Raise e)
  /\ (forall power, (eps =? 0)%float = false ->
                    float_pow (get pg (now * 1000)%float) (1 / eps)%float = Ok power ->
                    exists x, score = Ok x).
Proof.
  intros Hpf Hpg Href. cbv zeta.
  unfold score_bid, float_div. rewrite Hpf, Hpg. simpl.
  split; [| split].
  - intros ->. reflexivity.
  - intros e -> Hpow. simpl. rewrite Hpow. reflexivity.
  - intros power -> Hpow. simpl. rewrite Hpow. simpl.
    destruct (opponent_model st) as [ref |] eqn:E; [| eexists; reflexivity].
    unfold deref.
    destruct (nth_error (heap st) ref) as [m |] eqn:En.
    + eexists. reflexivity.
    + apply nth_error_None in En. specialize (Href ref eq_refl). lia.
Qed.

(** ** A bid space too large to sample *)

(** the bid space has as many bids as the product of the numbers of values
    of the issues *)
Lemma AllBidsList_length (d : Domain) :
  Z.of_nat (length (AllBidsList d)) = bid_space_size d.
Proof.
  induction d as [| [i vs] d IH]; [reflexivity |].
  cbn [AllBidsList bid_space_size fold_right snd].
  rewrite (flat_map_constant_length (c := length (AllBidsList d))).
  - rewrite Nat2Z.inj_mul. fold (bid_space_size d). rewrite IH. reflexivity.
  - intros v _. apply length_map.
Qed.

(** X15.  With an offer on the table and a bid space of more than
    [sys.maxsize] bids, the search draws nothing: [random.sample] raises
    [OverflowError] when it takes the length of the range of indices.  The
    turn then raises too, sends nothing and leaves the agent as it was. *)
Theorem find_bid_oversized_bid_space (st : State) (pf : Profile) (last : Bid) :
  profile st = Some pf -> last_received_bid st = Some last ->
  (Rand.sys_maxsize < bid_space_size (getDomain pf))%Z ->
  find_bid st = Rand.Ret (Raise OverflowError)
  /\ forall now,
       notifyChange st YourTurn now = Rand.Ret (Raise OverflowError, st)
       /\ (forall r st',
             Rand.returns (notifyChange st YourTurn now) (r, st') ->
             r = Raise OverflowError /\ st' = st).
Proof.
  intros Hpf Hlast Hbig. rewrite <- AllBidsList_length in Hbig.
  pose proof (find_bid_overflow st pf last Hpf Hlast Hbig) as Hfind.
  split; [exact Hfind |].
  intros now. split.
  - cbn [notifyChange]. unfold my_turn. rewrite Hfind. reflexivity.
  - intros r st' Hturn.
    exact (my_turn_overflow st pf last now r st' Hpf Hlast Hbig Hturn).
Qed.

(** ** The properties at work on the example session *)

Lemma Example_turn_offers :
  Rand.returns (my_turn (Example.after_offer Example.bid2) 50)
    (Ok tt,
     send_action (Example.after_offer Example.bid2)
       (Offer (Some "me_1"%string) Example.bid1)).
Proof.
  unfold my_turn.
  eapply RandFacts.returns_bind with (a := Ok Example.bid1).
  - eapply (find_bid_returns _ Example.prof Example.bid2);
      [reflexivity | reflexivity | discriminate | vm_compute; discriminate |].
    exists [0; 1], Example.bid1. split.
    + repeat split.
      * repeat constructor; simpl; intuition discriminate.
      * repeat constructor.
    + split; [reflexivity |]. vm_compute. left. reflexivity.
  - vm_compute. apply Rand.returns_Ret.
Qed.

Lemma Example_turn_accepts :
  Rand.returns (my_turn (Example.after_offer Example.bid2) 96)
    (Ok tt,
     send_action (Example.after_offer Example.bid2)
       (Accept (Some "me_1"%string) (Some Example.bid2))).
Proof.
  unfold my_turn.
  eapply RandFacts.returns_bind with (a := Ok Example.bid1).
  - eapply (find_bid_returns _ Example.prof Example.bid2);
      [reflexivity | reflexivity | discriminate | vm_compute; discriminate |].
    exists [0; 1], Example.bid1. split.
    + repeat split.
      * repeat constructor; simpl; intuition discriminate.
      * repeat constructor.
    + split; [reflexivity |]. vm_compute. left. reflexivity.
  - vm_compute. apply Rand.returns_Ret.
Qed.

Lemma Example_short_session_runs :
  run init
    [ (InformSettings Example.sett, 0%float);
      (ActionDone (Offer (Some "them_2"%string) Example.bid2), 10%float) ]
    (Example.after_offer Example.bid2).
Proof.
  eapply run_cons; [apply Rand.returns_Ret |].
  eapply run_cons; [rewrite notifyChange_ActionDone; apply Rand.returns_Ret |].
  apply run_nil.
Qed.

Lemma find_bid_returns_bid_of_domain_witness :
  (exists b, Rand.returns (find_bid (Example.after_offer Example.bid1)) (Ok b))
  /\ (forall r, Rand.returns (find_bid (Example.after_offer Example.bid1)) r ->
        exists b, r = Ok b /\ In b (AllBidsList (getDomain Example.prof)))
  /\ (Rand.prob (find_bid (Example.after_offer Example.bid1))
        (is_bid_of (AllBidsList (getDomain Example.prof))) == 1)%Q.
Proof.
  apply (find_bid_returns_bid_of_domain (Example.after_offer Example.bid1)
           Example.prof Example.bid1);
    [reflexivity | reflexivity | discriminate | vm_compute; discriminate].
Defined.

(** in the example the last offer is worth 1 to the agent: both bids pass
    the test (the second one on the margin), and both can be returned *)
Lemma find_bid_small_domain_witness :
  Rand.returns (find_bid (Example.after_offer Example.bid1)) (Ok Example.bid2) <->
  exists b,
    Ok Example.bid2 = Ok b
    /\ In b (AllBidsList (getDomain Example.prof))
    /\ ((exists b', In b' (AllBidsList (getDomain Example.prof))
                    /\ passes_concession Example.prof
                         (utility Example.prof Example.bid1) b' = true) ->
        passes_concession Example.prof (utility Example.prof Example.bid1) b = true).
Proof.
  apply (find_bid_small_domain (Example.after_offer Example.bid1)
           Example.prof Example.bid1 (Ok Example.bid2)).
  - reflexivity.
  - reflexivity.
  - discriminate.
  - vm_compute. repeat constructor.
Defined.

Lemma find_bid_unfiltered_below_margin_witness :
  (forall r, Rand.returns (find_bid Example.half) r
             <-> Rand.returns (choose_from_sample Example.prof_half) r)
  /\ (forall P, (Rand.prob (find_bid Example.half) P
                 == Rand.prob (choose_from_sample Example.prof_half) P)%Q).
Proof.
  apply (find_bid_unfiltered_below_margin Example.half Example.prof_half
           Example.bid1).
  - reflexivity.
  - reflexivity.
  - vm_compute. discriminate.
  - intros b [<- | [<- | []]]; vm_compute; discriminate.
Defined.

Lemma my_turn_answers_with_valid_action_witness :
  (exists r st', Rand.returns (my_turn (Example.after_offer Example.bid2) 50) (r, st'))
  /\ (forall r st',
        Rand.returns (my_turn (Example.after_offer Example.bid2) 50) (r, st') ->
        r = Ok tt
        /\ ((exists bid, In bid (AllBidsList (getDomain Example.prof))
                         /\ st' = send_action (Example.after_offer Example.bid2)
                                    (Offer (me (Example.after_offer Example.bid2)) bid))
            \/ st' = send_action (Example.after_offer Example.bid2)
                       (Accept (me (Example.after_offer Example.bid2))
                          (Some Example.bid2)))).
Proof.
  apply (my_turn_answers_with_valid_action (Example.after_offer Example.bid2)
           Example.prof Example.prog Example.bid2 50);
    [reflexivity | reflexivity | reflexivity | discriminate
    | vm_compute; discriminate].
Defined.

(** at 96% of the time the example agent accepts the offer worth 0.1 *)
Lemma my_turn_accepts_past_threshold_witness :
  Rand.returns (my_turn (Example.after_offer Example.bid2) 96)
    (Ok tt,
     send_action (Example.after_offer Example.bid2)
       (Accept (Some "me_1"%string) (Some Example.bid2)))
  /\ (Ok tt = Ok tt
      /\ send_action (Example.after_offer Example.bid2)
           (Accept (Some "me_1"%string) (Some Example.bid2))
         = send_action (Example.after_offer Example.bid2)
             (Accept (me (Example.after_offer Example.bid2)) (Some Example.bid2))).
Proof.
  split; [exact Example_turn_accepts |].
  apply (my_turn_accepts_past_threshold (Example.after_offer Example.bid2)
           Example.prof Example.prog Example.bid2 96);
    [reflexivity | reflexivity | reflexivity | discriminate
    | vm_compute; discriminate | reflexivity | exact Example_turn_accepts].
Defined.

(** half-way through, the example agent answers the offer worth 0.1 with
    the bid worth 1 *)
Lemma my_turn_never_offers_worse_witness :
  In Example.bid1 (AllBidsList (getDomain Example.prof))
  /\ (Dec.value (utility Example.prof Example.bid2)
      <= Dec.value (utility Example.prof Example.bid1))%Q
  /\ (T_default <? get Example.prog (50 * 1000))%float = false.
Proof.
  apply (my_turn_never_offers_worse (Example.after_offer Example.bid2)
           Example.prof Example.prog Example.bid2 50
           ltac:(reflexivity) ltac:(reflexivity) ltac:(reflexivity)
           ltac:(discriminate)
           (Ok tt)
           (send_action (Example.after_offer Example.bid2)
              (Offer (Some "me_1"%string) Example.bid1))
           (Some "me_1"%string) Example.bid1
           Example_turn_offers eq_refl).
Defined.

Lemma last_received_bid_is_latest_offer_witness :
  exists st,
    run init Example.trace st
    /\ last_received_bid st = Some Example.bid2.
Proof.
  destruct Example_session_runs as [st Hrun].
  exists st. split; [exact Hrun |].
  exact (last_received_bid_is_latest_offer Example.trace st Hrun).
Defined.

Lemma opponent_model_is_fed_every_offer_witness :
  exists st,
    run init Example.trace st
    /\ opponent_model st = Some 0
    /\ heap st
       = [OpponentModel_update
            (OpponentModel_update (OpponentModel_init (Some Example.dom))
               Example.bid1)
            Example.bid2].
Proof.
  destruct Example_session_runs as [st Hrun].
  exists st. split; [exact Hrun |].
  exact (opponent_model_is_fed_every_offer Example.trace st Hrun).
Defined.

Lemma other_is_opponent_name_witness :
  exists st',
    notifyChange Example.started
      (ActionDone (Accept (Some "them_2"%string) (Some Example.bid1))) 0
    = Rand.Ret (Ok tt, st')
    /\ other st' = Some "them"%string.
Proof.
  destruct (other_is_opponent_name Example.started
              (Accept (Some "them_2"%string) (Some Example.bid1)) 0
              "them_2"%string eq_refl eq_refl)
    as [st' [Hrun [Hname _]]].
  exists st'. split; [exact Hrun |].
  apply (Hname "them"%string "2"%string); [reflexivity |].
  intros c [<- | []]. discriminate.
Defined.

Lemma session_follows_latest_settings_witness :
  exists st,
    run init Example.trace st
    /\ session_of (Some Example.sett) st.
Proof.
  destruct Example_session_runs as [st Hrun].
  exists st. split; [exact Hrun |].
  exact (session_follows_latest_settings Example.trace st Hrun).
Defined.

Lemma sent_actions_follow_turns_witness :
  exists st,
    run init Example.trace st
    /\ length (sent st) <= 1
    /\ Forall (sendable [Example.bid1; Example.bid2]) (sent st).
Proof.
  destruct Example_session_runs as [st Hrun].
  exists st. split; [exact Hrun |].
  exact (sent_actions_follow_turns Example.trace st Hrun).
Defined.

(** the example session can be run up to the settings *)
Lemma Example_started_runs :
  run init [ (InformSettings Example.sett, 0%float) ] Example.started.
Proof.
  eapply run_cons; [apply Rand.returns_Ret |].
  apply run_nil.
Qed.

(** In the example session, once the other party has made its offer the turn
    has a run and every run sends one action; before any offer the turn has
    a run and every run raises [AttributeError], the agent being left as it
    was. *)
Lemma turn_in_session_witness :
  (Rand.returns (notifyChange (Example.after_offer Example.bid2) YourTurn 50)
     (Ok tt,
      send_action (Example.after_offer Example.bid2)
        (Offer (Some "me_1"%string) Example.bid1))
   /\ forall r st',
        Rand.returns (notifyChange (Example.after_offer Example.bid2) YourTurn 50)
          (r, st') ->
        r = Ok tt
        /\ exists action,
             sent st' = sent (Example.after_offer Example.bid2) ++ [action])
  /\ (Rand.returns (notifyChange Example.started YourTurn 50)
        (Raise AttributeError, Example.started)
      /\ forall r st',
           Rand.returns (notifyChange Example.started YourTurn 50) (r, st') ->
           r = Raise AttributeError /\ st' = Example.started).
Proof.
  split; split.
  - exact Example_turn_offers.
  - intros r st' Hturn.
    apply (turn_in_session _ (Example.after_offer Example.bid2) Example.sett 50
             r st' Example_short_session_runs eq_refl Hturn);
      [discriminate | discriminate | vm_compute; discriminate].
  - apply Rand.returns_Ret.
  - intros r st' Hturn.
    apply (turn_in_session _ Example.started Example.sett 50
             r st' Example_started_runs eq_refl Hturn);
      reflexivity.
Defined.

Lemma score_bid_errors_witness :
  score_bid Example.pow Example.float_of_Decimal Example.predict
    (Example.after_offer Example.bid1) Example.bid1 alpha_default 0 50
  = Raise ZeroDivisionError
  /\ exists x,
       score_bid Example.pow Example.float_of_Decimal Example.predict
         (Example.after_offer Example.bid1) Example.bid1
         alpha_default eps_default 50
       = Ok x.
Proof.
  split.
  - destruct (score_bid_errors Example.pow Example.float_of_Decimal Example.predict
                (Example.after_offer Example.bid1) Example.prof Example.prog
                Example.bid1 alpha_default 0 50 eq_refl eq_refl) as [H _].
    + intros ref Href. inversion Href. simpl. lia.
    + apply H. reflexivity.
  - destruct (score_bid_errors Example.pow Example.float_of_Decimal Example.predict
                (Example.after_offer Example.bid1) Example.prof Example.prog
                Example.bid1 alpha_default eps_default 50 eq_refl eq_refl)
      as [_ [_ H]].
    + intros ref Href. inversion Href. simpl. lia.
    + apply (H 0.0009765625%float); reflexivity.
Defined.

(** with 63 issues of two values each the example agent cannot search *)
Lemma find_bid_oversized_bid_space_witness :
  find_bid Example.wide = Rand.Ret (Raise OverflowError)
  /\ forall now,
       notifyChange Example.wide YourTurn now
       = Rand.Ret (Raise OverflowError, Example.wide)
       /\ (forall r st',
             Rand.returns (notifyChange Example.wide YourTurn now) (r, st') ->
             r = Raise OverflowError /\ st' = Example.wide).
Proof.
  apply (find_bid_oversized_bid_space Example.wide Example.wide_prof
           Example.wide_bid);
    [reflexivity | reflexivity | vm_compute; reflexivity].
Defined.
